(** * pysheng: the page and image resolution pipeline of [download.py]

    A shallow embedding of [pysheng/download.py] (Python 2).  Byte strings
    are lists of 8-bit characters, exceptions are values of [exn] carried in
    a sum, the regular expressions of the source are data interpreted by a
    backtracking matcher with the priorities of Python's [re], and the
    network is a function of the request history. *)

From Stdlib Require Import Ascii String.
From Stdlib Require Import List ZArith Lia Bool Arith.
From Stdlib Require Import Sorting.Sorted Sorting.Permutation.
From Stdlib Require Import Numbers.DecimalString.
Import ListNotations.

Set Warnings "-register-all".

Open Scope string_scope.
Open Scope list_scope.

(** ** Byte strings *)

(** A Python 2 [str]: a sequence of 8-bit characters.  String literals are
    read as such sequences. *)
Definition bytes := list ascii.

Coercion list_ascii_of_string : string >-> list.

Definition ascii_in (cs : bytes) (c : ascii) : bool :=
  existsb (Ascii.eqb c) cs.

(** [s[len(p):]] when [s.startswith(p)]. *)
Fixpoint strip_prefix (p s : bytes) : option bytes :=
  match p with
  | [] => Some s
  | c :: p' =>
      match s with
      | [] => None
      | d :: s' => if Ascii.eqb c d then strip_prefix p' s' else None
      end
  end.

(** [sub in s] on strings. *)
Fixpoint contains (sub s : bytes) : bool :=
  match strip_prefix sub s with
  | Some _ => true
  | None =>
      match s with
      | [] => false
      | _ :: s' => contains sub s'
      end
  end.

(** [s.split(sep)] for a separator of one character. *)
Fixpoint split (sep : ascii) (s : bytes) : list bytes :=
  match s with
  | [] => [[]]
  | c :: s' =>
      if Ascii.eqb c sep then [] :: split sep s'
      else
        match split sep s' with
        | p :: ps => (c :: p) :: ps
        | [] => [[c]]
        end
  end.

Definition lower_char (c : ascii) : ascii :=
  let n := nat_of_ascii c in
  if ((65 <=? n) && (n <=? 90))%nat then ascii_of_nat (n + 32) else c.

(** [s.lower()] in the C locale. *)
Definition lower (s : bytes) : bytes := map lower_char s.

Fixpoint take_while (p : ascii -> bool) (s : bytes) : bytes :=
  match s with
  | [] => []
  | c :: s' => if p c then c :: take_while p s' else []
  end.

Fixpoint drop_while (p : ascii -> bool) (s : bytes) : bytes :=
  match s with
  | [] => []
  | c :: s' => if p c then drop_while p s' else s
  end.

(** The double quote character. *)
Definition dquote : ascii := "034".

(** ** Exceptions *)

(** [ParsingError] is the exception class of the module; the others are the
    built-in exceptions that the interpreter and the libraries raise. *)
Inductive exn : Type :=
| ParsingError (msg : bytes)
| ValueError
| KeyError
| TypeError
| AttributeError
| LookupError
| UnicodeError
| IOError.

Definition result (A : Type) : Type := (exn + A)%type.

Definition is_ParsingError {A : Type} (r : result A) : bool :=
  match r with
  | inl (ParsingError _) => true
  | _ => false
  end.

(** ** Regular expressions

    Every pattern of the source is a sequence of quantified character
    classes with at most one capturing group, which encloses exactly one
    quantified class. *)

Inductive quant : Type := One | Opt | Star | Plus | LazyStar.

Record atom : Type := Atom
  { cls : ascii -> bool;   (* the character class *)
    qnt : quant;           (* its quantifier *)
    grp : bool }.          (* enclosed in the capturing group *)

Definition regex := list atom.

(** Character classes. *)
Definition chr (c : ascii) : ascii -> bool := Ascii.eqb c.
Definition set (cs : bytes) : ascii -> bool := ascii_in cs.
Definition nset (cs : bytes) : ascii -> bool := fun c => negb (ascii_in cs c).
(** [.] without DOTALL: anything but a newline. *)
Definition dot : ascii -> bool := fun c => negb (Ascii.eqb c "010").
(** [\d] on byte strings. *)
Definition digit : ascii -> bool :=
  fun c => let n := nat_of_ascii c in ((48 <=? n) && (n <=? 57))%nat.
(** [\s] on byte strings: space, \t, \n, \v, \f, \r. *)
Definition space : ascii -> bool :=
  fun c => let n := nat_of_ascii c in ((n =? 32) || ((9 <=? n) && (n <=? 13)))%nat.

(** A literal piece of a pattern. *)
Definition lit (s : bytes) : regex := map (fun c => Atom (chr c) One false) s.

(** The result of a match: group 1, when the group took part, and the text
    after the match. *)
Definition mresult : Type := (option bytes * bytes)%type.

(** Greedy repetition: the longest run first, giving characters back one at
    a time while the continuation [k] fails. *)
Fixpoint rep_greedy (p : ascii -> bool) (k : bytes -> bytes -> option mresult)
    (acc s : bytes) : option mresult :=
  match s with
  | c :: s' =>
      if p c then
        match rep_greedy p k (acc ++ [c]) s' with
        | Some r => Some r
        | None => k acc s
        end
      else k acc s
  | [] => k acc s
  end.

(** Lazy repetition: the shortest run first. *)
Fixpoint rep_lazy (p : ascii -> bool) (k : bytes -> bytes -> option mresult)
    (acc s : bytes) : option mresult :=
  match k acc s with
  | Some r => Some r
  | None =>
      match s with
      | c :: s' => if p c then rep_lazy p k (acc ++ [c]) s' else None
      | [] => None
      end
  end.

(** The backtracking matcher anchored at the head of [s]; [g] is group 1 so
    far. *)
Fixpoint match_here (re : regex) (g : option bytes) (s : bytes)
    : option mresult :=
  match re with
  | [] => Some (g, s)
  | a :: re' =>
      let k := fun m rest => match_here re' (if grp a then Some m else g) rest in
      match qnt a with
      | One =>
          match s with
          | c :: s' => if cls a c then k [c] s' else None
          | [] => None
          end
      | Opt =>
          match s with
          | c :: s' =>
              if cls a c then
                match k [c] s' with
                | Some r => Some r
                | None => k [] s
                end
              else k [] s
          | [] => k [] s
          end
      | Star => rep_greedy (cls a) k [] s
      | Plus =>
          match s with
          | c :: s' => if cls a c then rep_greedy (cls a) k [c] s' else None
          | [] => None
          end
      | LazyStar => rep_lazy (cls a) k [] s
      end
  end.

(** [re.search]: the leftmost position at which the pattern matches. *)
Fixpoint re_search (re : regex) (s : bytes) : option mresult :=
  match match_here re None s with
  | Some r => Some r
  | None =>
      match s with
      | [] => None
      | _ :: s' => re_search re s'
      end
  end.

(** [re.sub(re, repl, s)] for a pattern that matches no empty string and a
    replacement without backslash: the non-overlapping matches, leftmost
    first, are replaced by [repl].  [fuel] bounds the number of steps; the
    length of [s] is enough, every step consuming a character. *)
Fixpoint re_sub_fuel (fuel : nat) (re : regex) (repl s : bytes) : bytes :=
  match fuel with
  | O => s
  | S fuel' =>
      match s with
      | [] => []
      | c :: s' =>
          match match_here re None s with
          | Some (_, rest) => repl ++ re_sub_fuel fuel' re repl rest
          | None => c :: re_sub_fuel fuel' re repl s'
          end
      end
  end.

Definition re_sub (re : regex) (repl s : bytes) : bytes :=
  re_sub_fuel (length s) re repl s.

(** [re.sub("^" + re, repl, s)]: without MULTILINE the anchor leaves only a
    match at the head of [s]. *)
Definition re_sub_anchored (re : regex) (repl s : bytes) : bytes :=
  match match_here re None s with
  | Some (_, rest) => repl ++ rest
  | None => s
  end.


(** ** Python values and the interpreter's built-ins *)

(** What [json.loads] returns.  A [dict] keeps its members in document
    order, a later member for a key replacing an earlier one on lookup; a
    float is carried as a literal that denotes it. *)
Inductive json : Type :=
| JNull
| JBool (b : bool)
| JInt (z : Z)
| JFloat (literal : bytes)
| JString (s : bytes)
| JArray (elems : list json)
| JObject (members : list (bytes * json)).

Definition bytes_eqb (a b : bytes) : bool :=
  if list_eq_dec Ascii.ascii_dec a b then true else false.

Definition is_some {A : Type} (o : option A) : bool :=
  match o with
  | Some _ => true
  | None => false
  end.

(** The error monad of exceptions. *)
Definition bind {A B : Type} (r : result A) (k : A -> result B) : result B :=
  match r with
  | inl e => inl e
  | inr a => k a
  end.

Notation "x <- e ;; k" := (bind e (fun x => k))
  (at level 61, e at next level, right associativity).
Notation "' p <- e ;; k" := (bind e (fun x => match x with p => k end))
  (at level 61, p pattern, e at next level, right associativity).

Definition raise {A : Type} (e : exn) : result A := inl e.

(** Evaluation of [f] over a list from left to right; the first exception
    ends it. *)
Fixpoint map_result {A B : Type} (f : A -> result B) (l : list A)
    : result (list B) :=
  match l with
  | [] => inr []
  | a :: l' =>
      b <- f a ;;
      bs <- map_result f l' ;;
      inr (b :: bs)
  end.

(** [d[k]] of a dict: the last member for [k]. *)
Definition dict_get (k : bytes) (members : list (bytes * json)) : option json :=
  match find (fun kv => bytes_eqb k (fst kv)) (rev members) with
  | Some kv => Some (snd kv)
  | None => None
  end.

(** [len(v)]. *)
Definition py_len (v : json) : result nat :=
  match v with
  | JArray l => inr (length l)
  | JString s => inr (length s)
  | JObject ms => inr (length (nodup (list_eq_dec Ascii.ascii_dec) (map fst ms)))
  | _ => raise TypeError
  end.

(** [a, b = v[:2]].  A dict takes no slice; a slice of another length than
    two does not unpack. *)
Definition py_first_two (v : json) : result (json * json) :=
  match v with
  | JArray (a :: b :: _) => inr (a, b)
  | JString (a :: b :: _) => inr (JString [a], JString [b])
  | JArray _ | JString _ => raise ValueError
  | _ => raise TypeError
  end.

(** [JString k in v]: a key of a dict, an element of a list, a substring of
    a string. *)
Definition py_in (k : bytes) (v : json) : result bool :=
  match v with
  | JObject ms => inr (is_some (dict_get k ms))
  | JArray l =>
      inr (existsb (fun x => match x with
                             | JString s => bytes_eqb k s
                             | _ => false
                             end) l)
  | JString s => inr (contains k s)
  | _ => raise TypeError
  end.

(** [v[k]] for a string [k]. *)
Definition py_getitem (v : json) (k : bytes) : result json :=
  match v with
  | JObject ms =>
      match dict_get k ms with
      | Some x => inr x
      | None => raise KeyError
      end
  | _ => raise TypeError
  end.

(** The elements that iterating [v] gives.  A dict gives its keys and a
    string its characters, in both cases strings. *)
Definition py_iter (v : json) : result (list json) :=
  match v with
  | JArray l => inr l
  | JObject ms =>
      inr (map JString (nodup (list_eq_dec Ascii.ascii_dec) (map fst ms)))
  | JString s => inr (map (fun c => JString [c]) s)
  | _ => raise TypeError
  end.

(** [str(z)] of an integer. *)
Definition str_of_Z (z : Z) : bytes :=
  list_ascii_of_string (NilZero.string_of_int (Z.to_int z)).

(** What the program takes from outside: the standard library, the
    interpreter and the network.  [py_lt] is the order [<] of Python 2
    objects and [py_str] is [str]; both are fixed here on integers only.
    [lib_download history agent url] is the body that [lib.download] gets
    for [url] after the requests of [history]. *)
Class Runtime : Type := {
  json_loads : bytes -> bytes -> result json;
  py_lt : json -> json -> bool;
  py_lt_int : forall a b : Z, py_lt (JInt a) (JInt b) = (a <? b)%Z;
  py_str : json -> result bytes;
  py_str_int : forall z : Z, py_str (JInt z) = inr (str_of_Z z);
  html_unescape : json -> result json;
  raw_unicode_escape : bytes -> result bytes;
  lib_download : list bytes -> bytes -> bytes -> result bytes
}.

(** [sorted(l, key=...)] on the pairs of a key and an element: a stable
    sort that compares keys with [<].  Insertion from the right keeps the
    elements of equal keys in their order. *)
Section Sorted.
Context {A : Type} (lt : json -> json -> bool).

Fixpoint insert_by (x : json * A) (l : list (json * A)) : list (json * A) :=
  match l with
  | [] => [x]
  | y :: l' =>
      if lt (fst y) (fst x) then y :: insert_by x l' else x :: l
  end.

Definition sorted_by (l : list (json * A)) : list (json * A) :=
  fold_right insert_by [] l.
End Sorted.

(** Modelled from the spec: [lib.first], of the module [lib] that is not
    part of the sources; it gives the first element that the scan finds,
    and [None] when it finds none. *)
Definition first {A : Type} (it : list A) : option A := hd_error it.

(** [s.decode("string-escape")] *)
Definition hex_val (c : ascii) : option nat :=
  let n := nat_of_ascii c in
  if ((48 <=? n) && (n <=? 57))%nat then Some (n - 48)
  else if ((97 <=? n) && (n <=? 102))%nat then Some (n - 87)
  else if ((65 <=? n) && (n <=? 70))%nat then Some (n - 55)
  else None.

Definition oct_val (c : ascii) : option nat :=
  let n := nat_of_ascii c in
  if ((48 <=? n) && (n <=? 55))%nat then Some (n - 48) else None.

Definition simple_escape (c : ascii) : option bytes :=
  if Ascii.eqb c "010" then Some []
  else if Ascii.eqb c "\" then Some ["\"%char]
  else if Ascii.eqb c "'" then Some ["'"%char]
  else if Ascii.eqb c dquote then Some [dquote]
  else if Ascii.eqb c "b" then Some ["008"%char]
  else if Ascii.eqb c "f" then Some ["012"%char]
  else if Ascii.eqb c "t" then Some ["009"%char]
  else if Ascii.eqb c "n" then Some ["010"%char]
  else if Ascii.eqb c "r" then Some ["013"%char]
  else if Ascii.eqb c "v" then Some ["011"%char]
  else if Ascii.eqb c "a" then Some ["007"%char]
  else None.

(** One escape sequence after its backslash: the bytes it denotes and the
    number of characters of [s] it takes. *)
Definition decode_escape (s : bytes) : result (bytes * nat) :=
  match s with
  | [] => raise ValueError                       (* Trailing \ in string *)
  | c :: r =>
      match simple_escape c with
      | Some out => inr (out, 1)
      | None =>
          match oct_val c with
          | Some d1 =>
              match r with
              | c2 :: r2 =>
                  match oct_val c2 with
                  | Some d2 =>
                      match r2 with
                      | c3 :: _ =>
                          match oct_val c3 with
                          | Some d3 =>
                              inr ([ascii_of_nat (((d1 * 8 + d2) * 8 + d3) mod 256)], 3)
                          | None => inr ([ascii_of_nat (d1 * 8 + d2)], 2)
                          end
                      | [] => inr ([ascii_of_nat (d1 * 8 + d2)], 2)
                      end
                  | None => inr ([ascii_of_nat d1], 1)
                  end
              | [] => inr ([ascii_of_nat d1], 1)
              end
          | None =>
              if Ascii.eqb c "x" then
                match r with
                | h1 :: h2 :: _ =>
                    match hex_val h1, hex_val h2 with
                    | Some a, Some b => inr ([ascii_of_nat (a * 16 + b)], 3)
                    | _, _ => raise ValueError   (* invalid \x escape *)
                    end
                | _ => raise ValueError
                end
              else inr (["\"%char], 0)            (* the backslash is kept *)
          end
      end
  end.

Fixpoint decode_string_escape_from (skip : nat) (s : bytes) : result bytes :=
  match s with
  | [] => inr []
  | c :: s' =>
      match skip with
      | S n => decode_string_escape_from n s'
      | O =>
          if Ascii.eqb c "\" then
            '(out, n) <- decode_escape s' ;;
            rest <- decode_string_escape_from n s' ;;
            inr (out ++ rest)
          else
            rest <- decode_string_escape_from 0 s' ;;
            inr (c :: rest)
      end
  end.

Definition decode_string_escape (s : bytes) : result bytes :=
  decode_string_escape_from 0 s.

(** ** The module [download] *)

Module download.

(** The patterns of the module, in the order in which the source has them. *)

(** ["[?&]?id=([^&]+)"] *)
Definition re_id : regex :=
  Atom (set "?&") Opt false :: lit "id=" ++ [Atom (nset "&") Plus true].

(** ['input[^>]*\s+name="?ie"?'] *)
Definition re_input_ie : regex :=
  lit "input" ++ Atom (nset ">") Star false :: Atom space Plus false
    :: lit "name=" ++ Atom (chr dquote) Opt false :: lit "ie"
    ++ [Atom (chr dquote) Opt false].

(** ['value="(.*?)"'] *)
Definition re_value : regex :=
  lit ("value=" ++ [dquote]) ++ Atom dot LazyStar true :: lit [dquote].

(** [r'_OC_Run\((.*?)\);'] *)
Definition re_oc_run : regex :=
  lit "_OC_Run(" ++ Atom dot LazyStar true :: lit ");".

(** ["By\s+"], used anchored at the head of the string. *)
Definition re_by : regex := lit "By" ++ [Atom space Plus false].

(** [r"preloadImg.src = '([^']*?)'"]; the dot after [preloadImg] is not
    escaped and stands for any character but a newline. *)
Definition re_preload : regex :=
  lit "preloadImg" ++ Atom dot One false :: lit "src = '"
    ++ Atom (nset "'") LazyStar true :: lit "'".

(** ["w=(\d+)"] *)
Definition re_width : regex := lit "w=" ++ [Atom digit Plus true].

Definition AGENT : bytes := "Chrome 5.0".

(** The marker of a page that the service withholds. *)
Definition restricted_logo : bytes := "/googlebooks/restricted_logo.gif".

(** [match.group(1)] of a successful search. *)
Definition group1 (m : mresult) : bytes :=
  match fst m with
  | Some g => g
  | None => []
  end.

Definition get_id_from_string (s : bytes) : result bytes :=
  if negb (contains "/" s) then inr s
  else
    let url := s in
    match re_search re_id url with
    | None =>
        raise (ParsingError ("Error extracting id query string from URL: " ++ url))
    | Some m => inr (group1 m)
    end.

Definition get_cover_url (book_id : bytes) : bytes :=
  let url : bytes := "http://books.google.com/books" in
  url ++ "?id=" ++ book_id
      ++ "&hl=en&printsec=frontcover&source=gbs_ge_summary_r&cad=0".

(** The dictionary that [get_info] returns. *)
Record info : Type := Info
  { prefix : bytes;
    page_ids : list json;
    title : json;
    attribution : json;
    max_resolution : json * json }.

Definition get_page_url (prefix : bytes) (page_id : json) : result bytes :=
  match page_id with
  | JString p => inr (prefix ++ "&pg=" ++ p)
  | _ => raise TypeError
  end.

Definition get_image_url_from_page (html : bytes) : result (option bytes) :=
  if contains restricted_logo html then inr None
  else
    match re_search re_preload html with
    | None => raise (ParsingError "No image found in HTML page")
    | Some m =>
        url <- decode_string_escape (group1 m) ;;
        inr (Some url)
    end.

(** [islice(l, start, stop)], which takes no negative bound. *)
Definition islice {A : Type} (l : list A) (start : Z) (stop : option Z)
    : result (list A) :=
  if (start <? 0)%Z then raise ValueError
  else
    match stop with
    | None => inr (skipn (Z.to_nat start) l)
    | Some e =>
        if (e <? 0)%Z then raise ValueError
        else inr (firstn (Z.to_nat e - Z.to_nat start) (skipn (Z.to_nat start) l))
    end.

Section WithRuntime.
Context {R : Runtime}.

Definition get_unescape_entities (s : json) : result json := html_unescape s.

(** The variable [encoding] of [get_info]: the first piece between two
    ["<"] that declares the input field [ie] gives it. *)
Definition get_info_encoding (cover_html : bytes) : result bytes :=
  let tag := first (filter (fun s => is_some (re_search re_input_ie s))
                           (split "<" cover_html)) in
  match tag with
  | Some ((_ :: _) as tag) =>
      match re_search re_value tag with
      | None => raise (ParsingError "Cannot find encoding info")
      | Some m => inr (lower (group1 m))
      end
  | _ => inr ("iso8859-15" : bytes)
  end.

(** [get_info] from the length check of the parsed arguments on. *)
Definition get_info_parsed (oc_run_args : json) : result info :=
  n <- py_len oc_run_args ;;
  if (n <? 2)%nat then
    raise (ParsingError
             "Expecting at least 2 arguments in function: OC_Run()")
  else
    ' (pages_info, book_info) <- py_first_two oc_run_args ;;
    has_page <- py_in "page" pages_info ;;
    if negb has_page then raise (ParsingError "Cannot find page info")
    else
      pages <- py_getitem pages_info "page" ;;
      entries <- py_iter pages ;;
      keys <- map_result (fun d => py_getitem d "order") entries ;;
      page_ids <- map_result (fun x => py_getitem x "pid")
                    (map snd (sorted_by py_lt (combine keys entries))) ;;
      match page_ids with
      | [] => raise (ParsingError "No page_ids found")
      | _ :: _ =>
          prefix0 <- py_getitem pages_info "prefix" ;;
          prefix <- match prefix0 with
                    | JString p => raw_unicode_escape p
                    | _ => raise AttributeError
                    end ;;
          mw <- py_getitem book_info "max_resolution_image_width" ;;
          mh <- py_getitem book_info "max_resolution_image_height" ;;
          title0 <- py_getitem book_info "title" ;;
          title <- get_unescape_entities title0 ;;
          attribution0 <- py_getitem book_info "attribution" ;;
          attribution1 <- match attribution0 with
                          | JString a =>
                              inr (JString (re_sub_anchored re_by [] a))
                          | _ => raise TypeError
                          end ;;
          attribution <- get_unescape_entities attribution1 ;;
          inr {| prefix := prefix;
                 page_ids := page_ids;
                 title := title;
                 attribution := attribution;
                 max_resolution := (mw, mh) |}
      end.

(** [get_info] from the search for [_OC_Run] on: the arguments are
    parsed with [encoding]. *)
Definition get_info_decoded (encoding cover_html : bytes) : result info :=
  match re_search re_oc_run cover_html with
  | None => raise (ParsingError "No JS function OC_Run() found in HTML")
  | Some m =>
      oc_run_args <- json_loads ("[" ++ group1 m ++ "]") encoding ;;
      get_info_parsed oc_run_args
  end.

Definition get_info (cover_html : bytes) : result info :=
  encoding <- get_info_encoding cover_html ;;
  get_info_decoded encoding cover_html.

(** Code that fetches: the list of the URLs requested so far is threaded
    through it. *)
Definition fetching (A : Type) : Type := list bytes -> result A * list bytes.

Definition download (url : bytes) : fetching bytes :=
  fun history => (lib_download history AGENT url, history ++ [url]).

Definition get_info_from_url (url : bytes) : fetching info :=
  fun history =>
    match get_id_from_string url with
    | inl e => (inl e, history)
    | inr book_id =>
        let cover_url := get_cover_url book_id in
        match download cover_url history with
        | (inl e, history') => (inl e, history')
        | (inr cover_html, history') => (get_info cover_html, history')
        end
    end.

(** One element of the generator. *)
Definition item : Type := (info * Z * bytes)%type.

(** The body of the loop of [download_book] for the page at [page0] of
    the slice: what it yields, if anything. *)
Definition download_book_body (info : info) (page_start : Z) (page0 : nat)
    (page_id : json) : fetching (option item) :=
  fun history =>
    let page := (Z.of_nat page0 + page_start)%Z in
    match get_page_url (prefix info) page_id with
    | inl e => (inl e, history)
    | inr page_url =>
        match download page_url history with
        | (inl e, history1) => (inl e, history1)
        | (inr page_html, history1) =>
            match get_image_url_from_page page_html with
            | inl e => (inl e, history1)
            | inr (Some ((_ :: _) as image_url0)) =>
                let '(width, height) := max_resolution info in
                match py_str width with
                | inl e => (inl e, history1)
                | inr w =>
                    let image_url := re_sub re_width ("w=" ++ w) image_url0 in
                    match download image_url history1 with
                    | (inl e, history2) => (inl e, history2)
                    | (inr image_data, history2) =>
                        (inr (Some (info, page, image_data)), history2)
                    end
                end
            | inr _ => (inr None, history1)
            end
        end
    end.

(** What a generator has done when its consumer has run it to the end:
    the elements it yielded and the exception that ended it, if one
    did. *)
Record run : Type := Run
  { yielded : list item;
    raised : option exn }.

Fixpoint download_book_loop (info : info) (page_start : Z) (page0 : nat)
    (page_ids : list json) (history : list bytes) : run * list bytes :=
  match page_ids with
  | [] => (Run [] None, history)
  | page_id :: rest =>
      match download_book_body info page_start page0 page_id history with
      | (inl e, history') => (Run [] (Some e), history')
      | (inr y, history') =>
          let '(r, history'') :=
            download_book_loop info page_start (S page0) rest history' in
          (Run (match y with
                | Some it => it :: yielded r
                | None => yielded r
                end) (raised r), history'')
      end
  end.

Definition download_book (url : bytes) (page_start : Z) (page_end : option Z)
    (history : list bytes) : run * list bytes :=
  match get_info_from_url url history with
  | (inl e, history') => (Run [] (Some e), history')
  | (inr info, history') =>
      match islice (page_ids info) page_start page_end with
      | inl e => (Run [] (Some e), history')
      | inr page_ids => download_book_loop info page_start 0 page_ids history'
      end
  end.

End WithRuntime.

End download.

(** ** A runtime for fixtures

    The interpreter and the libraries on the fixtures of this file: 7-bit
    documents, numbers that are integers, strings without [&] or
    backslash, and a network that serves a given table of pages. *)

Module Fixture.

Definition json_ws (c : ascii) : bool := ascii_in [" "; "009"; "010"; "013"]%char c.

Definition skip_ws (s : bytes) : bytes := drop_while json_ws s.

(** The value of a run of decimal digits. *)
Definition digits_value (ds : bytes) : Z :=
  fold_left (fun acc c => (acc * 10 + Z.of_nat (nat_of_ascii c - 48))%Z) ds 0%Z.

(** A number: an optional sign, then [0] or a run of digits and, for a
    float, a fraction or an exponent. *)
Definition parse_number (s : bytes) : result (json * bytes) :=
  let '(neg, s1) := match s with
                    | c :: r => if Ascii.eqb c "-" then (true, r) else (false, s)
                    | [] => (false, s)
                    end in
  let ds := match s1 with
            | c :: _ => if Ascii.eqb c "0" then [c] else take_while digit s1
            | [] => []
            end in
  match ds with
  | [] => raise ValueError
  | _ :: _ =>
      let r := skipn (length ds) s1 in
      let frac := match r with
                  | c :: d :: _ =>
                      if Ascii.eqb c "." && digit d
                      then c :: take_while digit (tl r) else []
                  | _ => []
                  end in
      let r1 := skipn (length frac) r in
      let expo := match r1 with
                  | c :: r2 =>
                      if ascii_in "eE" c then
                        match r2 with
                        | d :: r3 =>
                            if digit d then c :: take_while digit r2
                            else if ascii_in "+-" d then
                              match take_while digit r3 with
                              | [] => []
                              | ds' => c :: d :: ds'
                              end
                            else []
                        | [] => []
                        end
                      else []
                  | [] => []
                  end in
      let r2 := skipn (length expo) r1 in
      match frac ++ expo with
      | [] => inr (JInt (if neg then - digits_value ds else digits_value ds), r2)
      | _ :: _ => inr (JFloat ((if neg then ["-"%char] else []) ++ ds ++ frac ++ expo), r2)
      end
  end.

(** The text of a string after its opening quote, up to the closing one. *)
Fixpoint parse_string_from (skip : nat) (s : bytes) : result (bytes * bytes) :=
  match s with
  | [] => raise ValueError
  | c :: s' =>
      match skip with
      | S n =>
          ' (str, r) <- parse_string_from n s' ;;
          inr (str, r)
      | O =>
          if Ascii.eqb c dquote then inr ([], s')
          else if Ascii.eqb c "\" then
            match s' with
            | e :: _ =>
                match (if Ascii.eqb e dquote then Some dquote
                       else if Ascii.eqb e "\" then Some "\"%char
                       else if Ascii.eqb e "/" then Some "/"%char
                       else if Ascii.eqb e "b" then Some "008"%char
                       else if Ascii.eqb e "f" then Some "012"%char
                       else if Ascii.eqb e "n" then Some "010"%char
                       else if Ascii.eqb e "r" then Some "013"%char
                       else if Ascii.eqb e "t" then Some "009"%char
                       else None) with
                | Some out =>
                    ' (str, r) <- parse_string_from 1 s' ;;
                    inr (out :: str, r)
                | None =>
                    if Ascii.eqb e "u" then
                      match s' with
                      | _ :: h1 :: h2 :: h3 :: h4 :: _ =>
                          match hex_val h1, hex_val h2, hex_val h3, hex_val h4 with
                          | Some 0, Some 0, Some a, Some b =>
                              ' (str, r) <- parse_string_from 5 s' ;;
                              inr (ascii_of_nat (a * 16 + b) :: str, r)
                          | Some _, Some _, Some _, Some _ => raise UnicodeError
                          | _, _, _, _ => raise ValueError
                          end
                      | _ => raise ValueError
                      end
                    else raise ValueError
                end
            | [] => raise ValueError
            end
          else if (nat_of_ascii c <? 32)%nat then raise ValueError
          else
            ' (str, r) <- parse_string_from 0 s' ;;
            inr (c :: str, r)
      end
  end.

Definition parse_string (s : bytes) : result (bytes * bytes) :=
  parse_string_from 0 s.

Definition keywords : list (bytes * json) :=
  [("null" : bytes, JNull); ("true" : bytes, JBool true);
   ("false" : bytes, JBool false); ("NaN" : bytes, JFloat "NaN");
   ("Infinity" : bytes, JFloat "Infinity");
   ("-Infinity" : bytes, JFloat "-Infinity")].

Fixpoint parse_keyword (kws : list (bytes * json)) (s : bytes)
    : option (json * bytes) :=
  match kws with
  | [] => None
  | (k, v) :: kws' =>
      match strip_prefix k s with
      | Some r => Some (v, r)
      | None => parse_keyword kws' s
      end
  end.

Fixpoint parse_value (fuel : nat) (s : bytes) : result (json * bytes) :=
  match fuel with
  | O => raise ValueError
  | S fuel' =>
      match skip_ws s with
      | [] => raise ValueError
      | c :: r =>
          if Ascii.eqb c dquote then
            ' (str, r') <- parse_string r ;;
            inr (JString str, r')
          else if Ascii.eqb c "[" then
            match skip_ws r with
            | d :: r' =>
                if Ascii.eqb d "]" then inr (JArray [], r')
                else
                  ' (vs, r'') <- parse_elements fuel' r ;;
                  inr (JArray vs, r'')
            | [] => raise ValueError
            end
          else if Ascii.eqb c "{" then
            match skip_ws r with
            | d :: r' =>
                if Ascii.eqb d "}" then inr (JObject [], r')
                else
                  ' (ms, r'') <- parse_members fuel' r ;;
                  inr (JObject ms, r'')
            | [] => raise ValueError
            end
          else
            match parse_keyword keywords (c :: r) with
            | Some vr => inr vr
            | None => parse_number (c :: r)
            end
      end
  end
with parse_elements (fuel : nat) (s : bytes) : result (list json * bytes) :=
  match fuel with
  | O => raise ValueError
  | S fuel' =>
      ' (v, r) <- parse_value fuel' s ;;
      match skip_ws r with
      | c :: r' =>
          if Ascii.eqb c "," then
            ' (vs, r'') <- parse_elements fuel' r' ;;
            inr (v :: vs, r'')
          else if Ascii.eqb c "]" then inr ([v], r')
          else raise ValueError
      | [] => raise ValueError
      end
  end
with parse_members (fuel : nat) (s : bytes)
    : result (list (bytes * json) * bytes) :=
  match fuel with
  | O => raise ValueError
  | S fuel' =>
      match skip_ws s with
      | q :: r0 =>
          if Ascii.eqb q dquote then
            ' (k, r1) <- parse_string r0 ;;
            match skip_ws r1 with
            | c :: r2 =>
                if Ascii.eqb c ":" then
                  ' (v, r3) <- parse_value fuel' r2 ;;
                  match skip_ws r3 with
                  | d :: r4 =>
                      if Ascii.eqb d "," then
                        ' (ms, r5) <- parse_members fuel' r4 ;;
                        inr ((k, v) :: ms, r5)
                      else if Ascii.eqb d "}" then inr ([(k, v)], r4)
                      else raise ValueError
                  | [] => raise ValueError
                  end
                else raise ValueError
            | [] => raise ValueError
            end
          else raise ValueError
      | [] => raise ValueError
      end
  end.

(** [json.loads(text, encoding=encoding)] on a 7-bit document, for which
    the codec that [encoding] names has nothing to decode. *)
Definition json_loads_7bit (text encoding : bytes) : result json :=
  if forallb (fun c => (nat_of_ascii c <? 128)%nat) text then
    ' (v, r) <- parse_value (2 * length text + 2) text ;;
    match skip_ws r with
    | [] => inr v
    | _ :: _ => raise ValueError                 (* Extra data *)
    end
  else raise UnicodeError.

(** The kinds of values in the order in which Python 2 puts them. *)
Definition kind_rank (v : json) : nat :=
  match v with
  | JNull => 0
  | JBool _ | JInt _ | JFloat _ => 1
  | JObject _ => 2
  | JArray _ => 3
  | JString _ => 4
  end.

Definition py_lt_fixture (a b : json) : bool :=
  match a, b with
  | JInt x, JInt y => (x <? y)%Z
  | _, _ => (kind_rank a <? kind_rank b)%nat
  end.

Definition py_str_fixture (v : json) : result bytes :=
  match v with
  | JInt z => inr (str_of_Z z)
  | JString s => inr s
  | JFloat l => inr l
  | JNull => inr ("None" : bytes)
  | JBool true => inr ("True" : bytes)
  | JBool false => inr ("False" : bytes)
  | _ => raise TypeError
  end.

(** [HTMLParser.unescape], which returns a string without [&] as it is. *)
Definition html_unescape_fixture (v : json) : result json :=
  match v with
  | JString s => if contains "&" s then raise ValueError else inr v
  | JArray _ | JObject _ => inr v
  | _ => raise TypeError
  end.

(** The codec [raw_unicode_escape] on a 7-bit string: only [\u] and [\U]
    escapes are decoded. *)
Definition raw_unicode_escape_fixture (s : bytes) : result bytes :=
  if contains "\u" s || contains "\U" s then raise UnicodeError else inr s.

(** The body that the table [web] has for [url]. *)
Fixpoint serve (web : list (bytes * bytes)) (url : bytes) : result bytes :=
  match web with
  | [] => raise IOError
  | (u, body) :: web' => if bytes_eqb u url then inr body else serve web' url
  end.

Lemma py_lt_fixture_int (a b : Z) :
  py_lt_fixture (JInt a) (JInt b) = (a <? b)%Z.
Proof. reflexivity. Qed.

Lemma py_str_fixture_int (z : Z) : py_str_fixture (JInt z) = inr (str_of_Z z).
Proof. reflexivity. Qed.

Definition runtime (web : list (bytes * bytes)) : Runtime :=
  {| json_loads := json_loads_7bit;
     py_lt := py_lt_fixture;
     py_lt_int := py_lt_fixture_int;
     py_str := py_str_fixture;
     py_str_int := py_str_fixture_int;
     html_unescape := html_unescape_fixture;
     raw_unicode_escape := raw_unicode_escape_fixture;
     lib_download := fun _ _ url => serve web url |}.

(** Fixtures are written with ['] for the double quote. *)
Definition dq (s : bytes) : bytes :=
  map (fun c => if Ascii.eqb c "'" then dquote else c) s.

(** The cover page of a book of three pages, whose entries come in the
    order 2, 0, 1. *)
Definition cover_html : bytes :=
  dq ("<html><input type='hidden' name='ie' value='UTF-8'>"
      ++ "<script>_OC_Run({'page':[{'pid':'p2','order':2},"
      ++ "{'pid':'p0','order':0},{'pid':'p1','order':1}],"
      ++ "'prefix':'http://x/b?id=B1'},"
      ++ "{'title':'T','attribution':'By A','max_resolution_image_width':2000,"
      ++ "'max_resolution_image_height':3000});</script></html>").

(** What [get_info] makes of it. *)
Definition cover_info : download.info :=
  {| download.prefix := "http://x/b?id=B1";
     download.page_ids := [JString "p0"; JString "p1"; JString "p2"];
     download.title := JString "T";
     download.attribution := JString "A";
     download.max_resolution := (JInt 2000, JInt 3000) |}.

(** A page with an image and a page that the service withholds. *)
Definition image_page : bytes :=
  "<script>preloadImg.src = 'http://x/img?w=100&id=1';</script>".

Definition restricted_page : bytes :=
  "<img src='/googlebooks/restricted_logo.gif'>".

(** A service on which the page [p1] of the book is withheld. *)
Definition web : list (bytes * bytes) :=
  [(download.get_cover_url "B1", cover_html);
   ("http://x/b?id=B1&pg=p0" : bytes, image_page);
   ("http://x/b?id=B1&pg=p1" : bytes, restricted_page);
   ("http://x/b?id=B1&pg=p2" : bytes, image_page);
   ("http://x/img?w=2000&id=1" : bytes, "PNG" : bytes)].

(** The argument text of the call of [_OC_Run] in [cover_html], and the
    entries of its page collection. *)
Definition cover_args : bytes :=
  dq ("{'page':[{'pid':'p2','order':2},"
      ++ "{'pid':'p0','order':0},{'pid':'p1','order':1}],"
      ++ "'prefix':'http://x/b?id=B1'},"
      ++ "{'title':'T','attribution':'By A','max_resolution_image_width':2000,"
      ++ "'max_resolution_image_height':3000}").

Definition cover_entry (pid : bytes) (order : Z) : json :=
  JObject [("pid" : bytes, JString pid); ("order" : bytes, JInt order)].

Definition cover_entries : list json :=
  [cover_entry "p2" 2; cover_entry "p0" 0; cover_entry "p1" 1].

Definition cover_members : list (bytes * json) :=
  [("page" : bytes, JArray cover_entries);
   ("prefix" : bytes, JString "http://x/b?id=B1")].

Definition cover_book_info : json :=
  JObject [("title" : bytes, JString "T");
           ("attribution" : bytes, JString "By A");
           ("max_resolution_image_width" : bytes, JInt 2000);
           ("max_resolution_image_height" : bytes, JInt 3000)].

(** A page whose image URL has, after the width, a parameter whose name
    ends in [w], and a service that has this page for [p0]. *)
Definition two_w_page : bytes :=
  "<script>preloadImg.src = 'http://x/img?w=100&sw=3&id=1';</script>".

Definition web_two_w : list (bytes * bytes) :=
  [("http://x/b?id=B1&pg=p0" : bytes, two_w_page);
   ("http://x/img?w=2000&sw=3&id=1" : bytes, "PNG" : bytes)].

End Fixture.

(** ** Reference functions

    What the searches of the module compute, written without the matcher;
    the properties below go through them. *)

Module Reference.
Import download.

(** The value that begins at the head of [s]: ["id="], a character other
    than [&], and the run up to the next [&]. *)
Definition id_here (s : bytes) : option bytes :=
  match strip_prefix "id=" s with
  | Some (c :: r) =>
      if nset "&" c then Some (c :: take_while (nset "&") r) else None
  | _ => None
  end.

(** The value at the leftmost place that has one. *)
Fixpoint id_value (s : bytes) : option bytes :=
  match id_here s with
  | Some v => Some v
  | None =>
      match s with
      | [] => None
      | _ :: s' => id_value s'
      end
  end.

(** The match of [re_width] at the head of [s]: the digits and the text
    after them. *)
Definition width_here (s : bytes) : option (bytes * bytes) :=
  match strip_prefix "w=" s with
  | Some (c :: r) =>
      if digit c then Some (c :: take_while digit r, drop_while digit r)
      else None
  | _ => None
  end.

(** [html] has an assignment that [re_preload] matches. *)
Definition has_preload (html : bytes) : Prop :=
  exists pre c url post,
    html = pre ++ "preloadImg" ++ c :: "src = '" ++ url ++ "'" ++ post
    /\ c <> "010"%char /\ Forall (fun x => x <> "'"%char) url.

Definition item_data (it : item) : bytes := snd it.

(** [m] is the text of [s] between the first [l1] and the next [l2]. *)
Definition between (l1 l2 s m : bytes) : Prop :=
  exists pre post,
    s = pre ++ l1 ++ m ++ l2 ++ post
    /\ (forall a r, s = a ++ l1 ++ r -> length pre <= length a)
    /\ (forall a r, m ++ l2 ++ post = a ++ l2 ++ r -> length m <= length a).

(** The argument text of the call of [_OC_Run] that [get_info] reads:
    what is between the first ["_OC_Run("] and the next [");"], on one
    line. *)
Definition oc_run_args_text (cover_html args : bytes) : Prop :=
  between "_OC_Run(" ");" cover_html args
  /\ Forall (fun c => c <> "010"%char) args.

(** The integer that a sort key is, when it is one. *)
Definition int_key (k : json) : Z :=
  match k with
  | JInt z => z
  | _ => 0%Z
  end.

(** The page identifier of an entry of the page collection. *)
Definition entry_pid (e : json) : json :=
  match e with
  | JObject ms =>
      match dict_get "pid" ms with
      | Some p => p
      | None => JNull
      end
  | _ => JNull
  end.

(** [e] is an entry with the integer [o] for [order] and [p] for [pid]. *)
Definition page_entry (e : json) (o : Z) (p : json) : Prop :=
  exists ms,
    e = JObject ms
    /\ dict_get "order" ms = Some (JInt o)
    /\ dict_get "pid" ms = Some p.

(** The order of two pairs of an [order] and a [pid]. *)
Definition order_le (a b : Z * json) : Prop := (fst a <= fst b)%Z.

(** Pairs of a sort key and an element: the order of their integer keys,
    and that the key is an integer. *)
Definition key_le {A : Type} (a b : json * A) : Prop :=
  (int_key (fst a) <= int_key (fst b))%Z.

Definition int_keyed {A : Type} (x : json * A) : Prop :=
  exists z, fst x = JInt z.

(** Pairs of an integer key and an entry that has an identifier. *)
Definition keyed_entry (x : json * json) : Prop :=
  int_keyed x /\ exists ms p, snd x = JObject ms /\ dict_get "pid" ms = Some p.

(** [s] has a declaration of the input field [ie]: the word [input], then
    characters other than [>], white space and [name=ie], the name quoted
    or not. *)
Definition ie_input (s : bytes) : Prop :=
  exists a m w q r,
    s = a ++ "input" ++ m ++ w ++ "name=" ++ q ++ "ie" ++ r
    /\ Forall (fun c => c <> ">"%char) m
    /\ w <> [] /\ Forall (fun c => space c = true) w
    /\ (q = [] \/ q = [dquote]).

(** Every ["id="] of [s] begins a query parameter: it comes after [?] or
    [&]. *)
Definition id_parameters_only (s : bytes) : Prop :=
  forall a r, s = a ++ "id=" ++ r ->
    exists a' c, a = a' ++ [c] /\ (c = "?"%char \/ c = "&"%char).

(** The same, computed over the positions of [s]. *)
Definition id_parameters_onlyb (s : bytes) : bool :=
  forallb (fun n =>
             if is_some (strip_prefix "id=" (skipn n s)) then
               match n with
               | O => false
               | S k =>
                   match nth_error s k with
                   | Some c => set "?&" c
                   | None => false
                   end
               end
             else true)
          (seq 0 (S (length s))).

(** A value that is no collection: [None], a boolean or a number. *)
Definition scalar (v : json) : Prop :=
  match v with
  | JNull | JBool _ | JInt _ | JFloat _ => True
  | _ => False
  end.

(** [tag] declares the input field whose name is [ie] and nothing more:
    after [name=] comes [ie] between double quotes, or [ie] bare, followed
    by the end of the text, white space, [>] or [/]. *)
Definition ie_field (tag : bytes) : Prop :=
  exists a m w r,
    Forall (fun c => c <> ">"%char) m
    /\ w <> [] /\ Forall (fun c => space c = true) w
    /\ (tag = a ++ "input" ++ m ++ w ++ "name=" ++ [dquote] ++ "ie"
                ++ [dquote] ++ r
        \/ (tag = a ++ "input" ++ m ++ w ++ "name=" ++ [] ++ "ie" ++ r
            /\ (r = [] \/ exists c r', r = c :: r'
                                       /\ (space c = true \/ c = ">"%char
                                           \/ c = "/"%char)))).

(** [v] is the value attribute of [tag]: the first [value=] with an
    opening double quote in [tag] comes after white space, and [v] is the
    text from there to the next double quote, on one line. *)
Definition value_attribute (tag v : bytes) : Prop :=
  exists pre c post,
    tag = (pre ++ [c]) ++ ("value=" ++ [dquote]) ++ v ++ [dquote] ++ post
    /\ space c = true
    /\ (forall a r, tag = a ++ ("value=" ++ [dquote]) ++ r ->
                    length (pre ++ [c]) <= length a)
    /\ (forall a r, v ++ [dquote] ++ post = a ++ [dquote] ++ r ->
                    length v <= length a)
    /\ Forall (fun x => x <> "010"%char) v.

End Reference.

(** * Properties *)

#[local] Arguments Ascii.eqb : simpl never.

(** ** Byte strings *)

Lemma strip_prefix_app (p r : bytes) : strip_prefix p (p ++ r) = Some r.
Proof.
  induction p as [|c p IH]; simpl; [reflexivity|].
  now rewrite Ascii.eqb_refl.
Qed.

Lemma strip_prefix_Some (p s r : bytes) :
  strip_prefix p s = Some r -> s = p ++ r.
Proof.
  revert s; induction p as [|c p IH]; simpl; intros s H.
  - congruence.
  - destruct s as [|d s]; [discriminate|].
    destruct (Ascii.eqb_spec c d) as [->|]; [|discriminate].
    now rewrite (IH _ H).
Qed.

Lemma strip_prefix_None (p s : bytes) :
  strip_prefix p s = None -> forall r, s <> p ++ r.
Proof.
  intros H r ->. rewrite strip_prefix_app in H. discriminate.
Qed.

Lemma contains_unfold (sub s : bytes) :
  contains sub s =
  match strip_prefix sub s with
  | Some _ => true
  | None => match s with [] => false | _ :: s' => contains sub s' end
  end.
Proof. destruct s; reflexivity. Qed.

Lemma contains_intro (sub a b : bytes) : contains sub (a ++ sub ++ b) = true.
Proof.
  induction a as [|c a IH]; rewrite contains_unfold; simpl.
  - now rewrite strip_prefix_app.
  - destruct (strip_prefix sub (c :: a ++ sub ++ b)); [reflexivity|exact IH].
Qed.

Lemma contains_elim (sub s : bytes) :
  contains sub s = true -> exists a b, s = a ++ sub ++ b.
Proof.
  induction s as [|c s IH]; rewrite contains_unfold.
  - destruct (strip_prefix sub []) as [l|] eqn:E; [|discriminate].
    intros _. exists [], l. apply strip_prefix_Some in E. exact E.
  - destruct (strip_prefix sub (c :: s)) as [l|] eqn:E.
    + intros _. exists [], l. apply strip_prefix_Some in E. exact E.
    + intros H. destruct (IH H) as (a & b & ->). now exists (c :: a), b.
Qed.

Lemma contains_false (sub s : bytes) :
  contains sub s = false <-> (forall a b, s <> a ++ sub ++ b).
Proof.
  split.
  - intros H a b ->. rewrite contains_intro in H. discriminate.
  - intros H. destruct (contains sub s) eqn:E; [|reflexivity].
    destruct (contains_elim _ _ E) as (a & b & ->). now destruct (H a b).
Qed.

(** Positions: what holds of no suffix of [s] that begins before [k]. *)
Lemma none_before (P : bytes -> bool) (s : bytes) (k : nat) :
  forallb (fun n => negb (P (skipn n s))) (seq 0 k) = true ->
  forall a r, s = a ++ r -> P r = true -> k <= length a.
Proof.
  intros H a r -> HP.
  destruct (le_lt_dec k (length a)) as [|Hlt]; [assumption|exfalso].
  rewrite forallb_forall in H.
  specialize (H (length a)). rewrite in_seq in H.
  assert (E : skipn (length a) (a ++ r) = r).
  { rewrite skipn_app, skipn_all, Nat.sub_diag. reflexivity. }
  rewrite E, HP in H. simpl in H.
  assert (false = true) by (apply H; lia). discriminate.
Qed.

(** ** The matcher *)

Lemma match_here_lit (l : bytes) (re : regex) (g : option bytes) (s : bytes) :
  match_here (lit l ++ re) g s =
  match strip_prefix l s with
  | Some r => match_here re g r
  | None => None
  end.
Proof.
  revert s; induction l as [|c l IH]; intros s; simpl; [reflexivity|].
  destruct s as [|d s]; [reflexivity|].
  unfold chr. destruct (Ascii.eqb c d); [apply IH|reflexivity].
Qed.

(** A greedy class at the end of a pattern takes the longest run. *)
Lemma rep_greedy_last (p : ascii -> bool) (g : bool) (g0 : option bytes)
    (acc s : bytes) :
  rep_greedy p (fun m rest => match_here [] (if g then Some m else g0) rest) acc s
  = Some (if g then Some (acc ++ take_while p s) else g0, drop_while p s).
Proof.
  revert acc; induction s as [|c s IH]; intros acc; simpl.
  - now rewrite app_nil_r.
  - destruct (p c) eqn:E.
    + rewrite IH, <- app_assoc. reflexivity.
    + now rewrite app_nil_r.
Qed.

(** If the continuation accepts after a run of the class, the greedy
    repetition finds a match. *)
Lemma rep_greedy_complete (p : ascii -> bool) k (m r acc : bytes) :
  Forall (fun c => p c = true) m ->
  k (acc ++ m) r <> None ->
  rep_greedy p k acc (m ++ r) <> None.
Proof.
  intros Hm; revert acc; induction Hm as [|c m Hc Hm IH]; intros acc Hk.
  - rewrite app_nil_r in Hk. simpl.
    destruct r as [|c r]; simpl; [assumption|].
    destruct (p c); [|assumption].
    destruct (rep_greedy p k (acc ++ [c]) r); [discriminate|assumption].
  - simpl. rewrite Hc.
    specialize (IH (acc ++ [c])). rewrite <- app_assoc in IH.
    destruct (rep_greedy p k (acc ++ [c]) (m ++ r)); [discriminate|].
    now destruct (IH Hk).
Qed.

(** What a greedy repetition returns, its continuation returned for a run
    of the class. *)
Lemma rep_greedy_sound (p : ascii -> bool) k (acc s : bytes) (res : mresult) :
  rep_greedy p k acc s = Some res ->
  exists m r, s = m ++ r /\ Forall (fun c => p c = true) m
              /\ k (acc ++ m) r = Some res.
Proof.
  revert acc; induction s as [|c s IH]; intros acc; simpl.
  - intros H. exists [], []. rewrite (app_nil_r acc). repeat split; auto.
  - destruct (p c) eqn:E.
    + destruct (rep_greedy p k (acc ++ [c]) s) eqn:F.
      * intros [= ->]. destruct (IH _ F) as (m & r & -> & Hm & Hk).
        exists (c :: m), r. rewrite <- app_assoc in Hk. repeat split; auto.
      * intros H. exists [], (c :: s). rewrite (app_nil_r acc). repeat split; auto.
    + intros H. exists [], (c :: s). rewrite (app_nil_r acc). repeat split; auto.
Qed.

Lemma rep_lazy_sound (p : ascii -> bool) k (acc s : bytes) (res : mresult) :
  rep_lazy p k acc s = Some res ->
  exists m r, s = m ++ r /\ Forall (fun c => p c = true) m
              /\ k (acc ++ m) r = Some res.
Proof.
  revert acc; induction s as [|c s IH]; intros acc; simpl.
  - destruct (k acc []) eqn:E; [|discriminate].
    intros [= ->]. exists [], []. rewrite (app_nil_r acc). repeat split; auto.
  - destruct (k acc (c :: s)) eqn:E.
    + intros [= ->]. exists [], (c :: s). rewrite (app_nil_r acc). repeat split; auto.
    + destruct (p c) eqn:F; [|discriminate].
      intros H. destruct (IH _ H) as (m & r & -> & Hm & Hk).
      exists (c :: m), r. rewrite <- app_assoc in Hk. repeat split; auto.
Qed.

(** A lazy repetition stops at the first place where its continuation
    accepts. *)
Lemma rep_lazy_first (p : ascii -> bool) k (m r acc : bytes) (res : mresult) :
  Forall (fun c => p c = true) m ->
  (forall m1 m2, m = m1 ++ m2 -> m2 <> [] -> k (acc ++ m1) (m2 ++ r) = None) ->
  k (acc ++ m) r = Some res ->
  rep_lazy p k acc (m ++ r) = Some res.
Proof.
  intros Hm; revert acc; induction Hm as [|c m Hc Hm IH]; intros acc Hfirst Hk.
  - rewrite app_nil_r in Hk. destruct r; simpl; now rewrite Hk.
  - simpl.
    pose proof (Hfirst [] (c :: m) eq_refl ltac:(discriminate)) as H0.
    rewrite app_nil_r in H0. simpl in H0. rewrite H0, Hc. apply IH.
    + intros m1 m2 -> Hm2. rewrite <- app_assoc.
      now apply (Hfirst (c :: m1) m2).
    + now rewrite <- app_assoc.
Qed.

Lemma rep_lazy_complete (p : ascii -> bool) k (m r acc : bytes) :
  Forall (fun c => p c = true) m ->
  k (acc ++ m) r <> None ->
  rep_lazy p k acc (m ++ r) <> None.
Proof.
  intros Hm; revert acc; induction Hm as [|c m Hc Hm IH]; intros acc Hk.
  - rewrite app_nil_r in Hk. destruct r; simpl; destruct (k acc _); congruence.
  - simpl. destruct (k acc (c :: m ++ r)); [discriminate|].
    rewrite Hc. apply IH. now rewrite <- app_assoc.
Qed.

(** [re.search] returns the match at the first position that has one. *)
Lemma re_search_at (re : regex) (pre s : bytes) (res : mresult) :
  (forall a b, pre = a ++ b -> b <> [] -> match_here re None (b ++ s) = None) ->
  match_here re None s = Some res ->
  re_search re (pre ++ s) = Some res.
Proof.
  induction pre as [|c pre IH]; intros Hpre Hs.
  - simpl. destruct s; simpl; now rewrite Hs.
  - pose proof (Hpre [] (c :: pre) eq_refl ltac:(discriminate)) as H0.
    simpl in *. rewrite H0.
    apply IH; [|assumption].
    intros a b -> Hb. now apply (Hpre (c :: a) b).
Qed.

Lemma re_search_complete (re : regex) (pre s : bytes) :
  match_here re None s <> None -> re_search re (pre ++ s) <> None.
Proof.
  intros H. induction pre as [|c pre IH]; simpl.
  - destruct s; simpl; destruct (match_here re None _); congruence.
  - destruct (match_here re None (c :: pre ++ s)); [discriminate|assumption].
Qed.

Lemma re_search_sound (re : regex) (s : bytes) (res : mresult) :
  re_search re s = Some res ->
  exists pre t, s = pre ++ t /\ match_here re None t = Some res.
Proof.
  induction s as [|c s IH]; simpl.
  - destruct (match_here re None []) eqn:E; [|discriminate].
    intros [= ->]. now exists [], [].
  - destruct (match_here re None (c :: s)) eqn:E.
    + intros [= ->]. now exists [], (c :: s).
    + intros H. destruct (IH H) as (pre & t & -> & Ht). now exists (c :: pre), t.
Qed.

(** ** The identifier resolver *)

Import download Reference.

(** Literals, spelled out. *)
Ltac lits := cbv [list_ascii_of_string] in *.

Lemma nset_amp (c : ascii) : nset "&" c = true <-> c <> "&"%char.
Proof.
  unfold nset, ascii_in; simpl. rewrite orb_false_r.
  destruct (Ascii.eqb_spec c "&"); simpl; split; congruence.
Qed.

Lemma take_while_all (p : ascii -> bool) (v post : bytes) :
  Forall (fun c => p c = true) v ->
  (post = [] \/ exists c r, post = c :: r /\ p c = false) ->
  take_while p (v ++ post) = v.
Proof.
  intros Hv Hpost. induction Hv as [|c v Hc Hv IH]; simpl.
  - destruct Hpost as [->|(c & r & -> & Hc)]; simpl; [reflexivity|now rewrite Hc].
  - now rewrite Hc, IH.
Qed.

Lemma match_id_tail (g : option bytes) (s : bytes) :
  option_map group1
    (match_here (lit "id=" ++ [Atom (nset "&") Plus true]) g s) = id_here s.
Proof.
  rewrite match_here_lit. unfold id_here.
  destruct (strip_prefix "id=" s) as [[|c r]|]; try reflexivity.
  simpl. destruct (nset _ c); [|reflexivity].
  rewrite (rep_greedy_last _ true g). reflexivity.
Qed.

Lemma id_here_head (c : ascii) (s : bytes) :
  set "?&" c = true -> id_here (c :: s) = None.
Proof.
  unfold set, ascii_in, id_here; simpl. rewrite orb_false_r.
  intros H. destruct (Ascii.eqb_spec "i" c) as [<-|]; [discriminate|reflexivity].
Qed.

Lemma match_re_id (s : bytes) :
  option_map group1 (match_here re_id None s) =
  match s with
  | [] => None
  | c :: s' =>
      if set "?&" c then id_here s' else id_here s
  end.
Proof.
  unfold re_id.
  change (match_here (Atom (set "?&") Opt false :: ?re) None s)
    with (match s with
          | c :: s' =>
              if set "?&" c then
                match match_here re None s' with
                | Some r => Some r
                | None => match_here re None s
                end
              else match_here re None s
          | [] => match_here re None s
          end).
  destruct s as [|c s'].
  - now rewrite match_id_tail.
  - destruct (set "?&" c) eqn:E.
    + rewrite <- (match_id_tail None s').
      destruct (match_here _ None s') as [r|] eqn:F; [reflexivity|].
      now rewrite match_id_tail, id_here_head.
    + apply match_id_tail.
Qed.

Lemma id_value_cons (c : ascii) (s : bytes) :
  id_value (c :: s) =
  match id_here (c :: s) with
  | Some v => Some v
  | None => id_value s
  end.
Proof. reflexivity. Qed.

Lemma id_value_here (s v : bytes) : id_here s = Some v -> id_value s = Some v.
Proof.
  intros H. destruct s; [|now rewrite id_value_cons, H].
  change (match id_here [] with Some v0 => Some v0 | None => None end = Some v).
  now rewrite H.
Qed.

Lemma re_search_cons (re : regex) (c : ascii) (s : bytes) :
  re_search re (c :: s) =
  match match_here re None (c :: s) with
  | Some r => Some r
  | None => re_search re s
  end.
Proof. reflexivity. Qed.

Lemma re_search_id (s : bytes) :
  option_map group1 (re_search re_id s) = id_value s.
Proof.
  induction s as [|c s IH].
  - pose proof (match_re_id []) as H. simpl re_search. simpl id_value.
    destruct (match_here re_id None []); [discriminate H|reflexivity].
  - rewrite re_search_cons, id_value_cons.
    pose proof (match_re_id (c :: s)) as H. cbv beta iota in H.
    destruct (match_here re_id None (c :: s)) as [r|];
      simpl option_map in *; destruct (set "?&" c) eqn:E.
    + rewrite id_here_head by assumption. symmetry. now apply id_value_here.
    + now rewrite <- H.
    + now rewrite id_here_head by assumption.
    + now rewrite <- H.
Qed.

Lemma id_here_value (v post : bytes) :
  v <> [] -> Forall (fun c => c <> "&"%char) v ->
  (post = [] \/ exists r, post = "&"%char :: r) ->
  id_here ("id=" ++ v ++ post) = Some v.
Proof.
  intros Hv Hall Hpost. unfold id_here. rewrite strip_prefix_app.
  destruct v as [|c v]; [contradiction|]. inversion Hall as [|? ? Hc Hall']; subst.
  apply nset_amp in Hc. lits. simpl. rewrite Hc. f_equal. f_equal.
  apply take_while_all.
  - eapply Forall_impl; [|exact Hall']. intros a. apply nset_amp.
  - destruct Hpost as [->|[r ->]]; [now left|right].
    exists "&"%char, r. split; [reflexivity|].
    destruct (nset "&" "&") eqn:E; [|reflexivity].
    apply nset_amp in E. contradiction.
Qed.

Lemma id_here_Some (s v : bytes) :
  id_here s = Some v ->
  exists c r, s = "id=" ++ c :: r /\ c <> "&"%char.
Proof.
  unfold id_here. destruct (strip_prefix "id=" s) as [[|c r]|] eqn:E; try discriminate.
  destruct (nset "&" c) eqn:F; [|discriminate]. intros _.
  exists c, r. split; [now apply strip_prefix_Some|now apply nset_amp].
Qed.

Lemma id_here_None (s : bytes) (c : ascii) (r : bytes) :
  id_here s = None -> s = "id=" ++ c :: r -> c = "&"%char.
Proof.
  intros H ->. unfold id_here in H. rewrite strip_prefix_app in H.
  destruct (nset "&" c) eqn:F; [discriminate|].
  destruct (Ascii.ascii_dec c "&") as [|n]; [assumption|].
  apply nset_amp in n. congruence.
Qed.

Lemma id_value_leftmost (pre v post : bytes) :
  v <> [] -> Forall (fun c => c <> "&"%char) v ->
  (post = [] \/ exists r, post = "&"%char :: r) ->
  (forall a c r, pre ++ "id=" ++ v ++ post = a ++ "id=" ++ c :: r ->
                 c <> "&"%char -> length pre <= length a) ->
  id_value (pre ++ "id=" ++ v ++ post) = Some v.
Proof.
  intros Hv Hall Hpost. induction pre as [|x pre IH]; intros Hleft.
  - apply id_value_here. now apply id_here_value.
  - rewrite <- app_comm_cons, id_value_cons.
    destruct (id_here (x :: pre ++ "id=" ++ v ++ post)) as [w|] eqn:E.
    + destruct (id_here_Some _ _ E) as (c & r & Hs & Hc).
      specialize (Hleft [] c r Hs Hc). simpl in Hleft. lia.
    + apply IH. intros a c r Hs Hc.
      assert (Hx : (x :: pre) ++ "id=" ++ v ++ post = (x :: a) ++ "id=" ++ c :: r)
        by (rewrite <- !app_comm_cons; now rewrite Hs).
      specialize (Hleft _ _ _ Hx Hc). simpl in Hleft. lia.
Qed.

Lemma id_value_None (s : bytes) :
  id_value s = None <->
  (forall a r, s = a ++ "id=" ++ r -> r = [] \/ exists r', r = "&"%char :: r').
Proof.
  split.
  - intros H a. revert s H. induction a as [|x a IH]; intros s H r Hs.
    + destruct r as [|c r]; [now left|right]. exists r. f_equal.
      apply (id_here_None s c r); [|exact Hs].
      destruct (id_here s) eqn:E; [|reflexivity].
      now rewrite (id_value_here _ _ E) in H.
    + subst s. rewrite <- app_comm_cons, id_value_cons in H.
      destruct (id_here _); [discriminate|]. now apply (IH _ H).
  - induction s as [|x s IH]; intros H.
    + reflexivity.
    + rewrite id_value_cons.
      destruct (id_here (x :: s)) as [w|] eqn:E.
      * destruct (id_here_Some _ _ E) as (c & r & Hs & Hc).
        destruct (H [] (c :: r) Hs) as [|[r' [= -> _]]]; [discriminate|contradiction].
      * apply IH. intros a r ->. now apply (H (x :: a) r).
Qed.

Lemma contains_char (c : ascii) (s : bytes) : contains [c] s = true <-> In c s.
Proof.
  split.
  - intros H. destruct (contains_elim _ _ H) as (a & b & ->).
    apply in_or_app. right. now left.
  - intros H. destruct (in_split _ _ H) as (a & b & ->).
    apply (contains_intro [c] a b).
Qed.

(** The resolver in terms of the text of the string: without ["/"] it is
    the identity; with ["/"] it returns the run of characters other than
    [&] after the leftmost ["id="] that a character other than [&] follows,
    and it raises [ParsingError] exactly when every ["id="] of the string
    is at its end or before a [&]. *)
Theorem get_id_from_string_leftmost_id (s : bytes) :
  (~ In "/"%char s -> get_id_from_string s = inr s) /\
  (In "/"%char s ->
   (forall pre v post,
       s = pre ++ "id=" ++ v ++ post ->
       v <> [] -> Forall (fun c => c <> "&"%char) v ->
       (post = [] \/ exists r, post = "&"%char :: r) ->
       (forall a c r, s = a ++ "id=" ++ c :: r -> c <> "&"%char ->
                      length pre <= length a) ->
       get_id_from_string s = inr v) /\
   (is_ParsingError (get_id_from_string s) = true <->
    forall a r, s = a ++ "id=" ++ r -> r = [] \/ exists r', r = "&"%char :: r')).
Proof.
  unfold get_id_from_string.
  change (contains "/" s) with (contains ["/"%char] s).
  split.
  - intros H. destruct (contains ["/"%char] s) eqn:E; [|reflexivity].
    apply contains_char in E. contradiction.
  - intros H. apply contains_char in H. rewrite H. simpl negb. cbv iota.
    pose proof (re_search_id s) as Hs. split.
    + intros pre v post -> Hv Hall Hpost Hleft.
      rewrite (id_value_leftmost pre v post Hv Hall Hpost Hleft) in Hs.
      destruct (re_search re_id _) as [m|]; [|discriminate].
      cbn [option_map] in Hs. injection Hs as <-. reflexivity.
    + rewrite <- id_value_None, <- Hs.
      destruct (re_search re_id s); cbn [option_map is_ParsingError raise];
        split; congruence.
Qed.

Lemma id_here_found (c : ascii) (r : bytes) :
  c <> "&"%char -> is_some (id_here ("id=" ++ c :: r)) = true.
Proof.
  intros Hc. unfold id_here. rewrite strip_prefix_app.
  apply nset_amp in Hc. now rewrite Hc.
Qed.

(** The resolver on a bare identifier, on a cover URL and on a URL without
    [id=]. *)
Lemma get_id_from_string_leftmost_id_witness :
  get_id_from_string "ABC123" = inr ("ABC123" : bytes) /\
  get_id_from_string "http://books.google.com/books?id=ABC123&hl=en"
  = inr ("ABC123" : bytes) /\
  is_ParsingError (get_id_from_string "http://books.google.com/books?hl=en")
  = true.
Proof.
  split; [|split].
  - apply (proj1 (get_id_from_string_leftmost_id "ABC123")).
    intros H. vm_compute in H. intuition discriminate.
  - refine (proj1 (proj2 (get_id_from_string_leftmost_id _) _)
              "http://books.google.com/books?" "ABC123" "&hl=en" eq_refl _ _ _ _).
    + vm_compute. tauto.
    + discriminate.
    + repeat constructor; discriminate.
    + right. now exists "hl=en".
    + intros a c r Hs Hc.
      eapply (none_before (fun t => is_some (id_here t)));
        [|exact Hs|now apply id_here_found].
      reflexivity.
  - apply (proj2 (get_id_from_string_leftmost_id _)).
    + vm_compute. tauto.
    + intros a r Hs. exfalso. revert Hs. apply contains_false. reflexivity.
Defined.

(** The resolver on a URL whose [id] parameter is empty and on a URL that
    has, before [id], a parameter whose name ends in [id]: the pattern does
    not fix where the name begins. *)
Lemma get_id_from_string_not_the_id_parameter :
  (In "/"%char ("http://books.google.com/books?id=&hl=en" : bytes) /\
   ("http://books.google.com/books?id=&hl=en" : bytes)
   = "http://books.google.com/books?" ++ "id=" ++ [] ++ "&hl=en" /\
   is_ParsingError (get_id_from_string "http://books.google.com/books?id=&hl=en")
   = true) /\
  get_id_from_string "http://books.google.com/books?vid=ISBN9&id=ABC123"
  = inr ("ISBN9" : bytes).
Proof.
  repeat split.
  vm_compute. tauto.
Qed.

(** ** Patterns with a lazy group *)

Lemma match_here_lit_end (l : bytes) (g : option bytes) (s : bytes) :
  match_here (lit l) g s =
  match strip_prefix l s with
  | Some r => Some (g, r)
  | None => None
  end.
Proof. rewrite <- (app_nil_r (lit l)). apply match_here_lit. Qed.

Lemma match_lazy_group (p : ascii -> bool) (l2 m post : bytes) (g : option bytes) :
  Forall (fun c => p c = true) m ->
  (forall m1 m2, m = m1 ++ m2 -> m2 <> [] ->
                 strip_prefix l2 (m2 ++ l2 ++ post) = None) ->
  match_here (Atom p LazyStar true :: lit l2) g (m ++ l2 ++ post)
  = Some (Some m, post).
Proof.
  intros Hm Hfirst.
  change (rep_lazy p (fun m0 rest => match_here (lit l2) (Some m0) rest) []
            (m ++ l2 ++ post) = Some (Some m, post)).
  apply rep_lazy_first; [assumption| |].
  - intros m1 m2 E Hm2. rewrite match_here_lit_end.
    now rewrite (Hfirst m1 m2 E Hm2).
  - now rewrite match_here_lit_end, strip_prefix_app.
Qed.

Lemma match_lazy_group_sound (p : ascii -> bool) (l2 s : bytes)
    (g : option bytes) (res : mresult) :
  match_here (Atom p LazyStar true :: lit l2) g s = Some res ->
  exists m post, s = m ++ l2 ++ post /\ Forall (fun c => p c = true) m
                 /\ res = (Some m, post).
Proof.
  change (match_here (Atom p LazyStar true :: lit l2) g s)
    with (rep_lazy p (fun m0 rest => match_here (lit l2) (Some m0) rest) [] s).
  intros H. destruct (rep_lazy_sound _ _ _ _ _ H) as (m & r & -> & Hm & Hk).
  rewrite match_here_lit_end in Hk.
  destruct (strip_prefix l2 r) as [post|] eqn:E; [|discriminate].
  apply strip_prefix_Some in E. subst r. injection Hk as <-.
  now exists m, post.
Qed.

Lemma match_lazy_group_complete (p : ascii -> bool) (l2 m post : bytes)
    (g : option bytes) :
  Forall (fun c => p c = true) m ->
  match_here (Atom p LazyStar true :: lit l2) g (m ++ l2 ++ post) <> None.
Proof.
  intros Hm.
  change (rep_lazy p (fun m0 rest => match_here (lit l2) (Some m0) rest) []
            (m ++ l2 ++ post) <> None).
  apply rep_lazy_complete; [assumption|].
  rewrite match_here_lit_end, strip_prefix_app. discriminate.
Qed.

(** ** The page resolver *)

Lemma nset_quote (c : ascii) : nset "'" c = true <-> c <> "'"%char.
Proof.
  unfold nset, ascii_in; simpl. rewrite orb_false_r.
  destruct (Ascii.eqb_spec c "'"); simpl; split; congruence.
Qed.

Lemma dot_newline (c : ascii) : dot c = true <-> c <> "010"%char.
Proof.
  unfold dot. destruct (Ascii.eqb_spec c "010"); simpl; split; congruence.
Qed.

Lemma match_one_unfold (p : ascii -> bool) (re : regex) (g : option bytes)
    (c : ascii) (s : bytes) :
  match_here (Atom p One false :: re) g (c :: s) =
  if p c then match_here re g s else None.
Proof. reflexivity. Qed.

Lemma re_preload_unfold (s : bytes) :
  match_here re_preload None s =
  match strip_prefix "preloadImg" s with
  | Some (c :: r) =>
      if dot c then
        match strip_prefix "src = '" r with
        | Some r' => match_here (Atom (nset "'") LazyStar true :: lit "'") None r'
        | None => None
        end
      else None
  | _ => None
  end.
Proof.
  unfold re_preload. rewrite match_here_lit.
  destruct (strip_prefix "preloadImg" s) as [[|c r]|]; try reflexivity.
  rewrite match_one_unfold.
  destruct (dot c); [|reflexivity].
  now rewrite match_here_lit.
Qed.

Lemma match_preload_sound (s : bytes) (res : mresult) :
  match_here re_preload None s = Some res ->
  exists c url post,
    s = "preloadImg" ++ c :: "src = '" ++ url ++ "'" ++ post
    /\ c <> "010"%char /\ Forall (fun x => x <> "'"%char) url
    /\ res = (Some url, post).
Proof.
  rewrite re_preload_unfold.
  destruct (strip_prefix "preloadImg" s) as [[|c r]|] eqn:E1; try discriminate.
  destruct (dot c) eqn:Hc; [|discriminate].
  destruct (strip_prefix "src = '" r) as [r'|] eqn:E2; [|discriminate].
  intros H. apply match_lazy_group_sound in H.
  destruct H as (url & post & -> & Hurl & ->).
  apply strip_prefix_Some in E1, E2. subst s r.
  exists c, url, post. repeat split.
  - now apply dot_newline.
  - eapply Forall_impl; [|exact Hurl]. intros x. apply nset_quote.
Qed.

Lemma match_preload_complete (c : ascii) (url post : bytes) :
  c <> "010"%char -> Forall (fun x => x <> "'"%char) url ->
  match_here re_preload None
    ("preloadImg" ++ c :: "src = '" ++ url ++ "'" ++ post) <> None.
Proof.
  intros Hc Hurl. rewrite re_preload_unfold, strip_prefix_app.
  apply dot_newline in Hc. rewrite Hc, strip_prefix_app.
  apply match_lazy_group_complete.
  eapply Forall_impl; [|exact Hurl]. intros x. apply nset_quote.
Qed.

Lemma re_search_preload (html : bytes) :
  re_search re_preload html <> None <-> has_preload html.
Proof.
  split.
  - destruct (re_search re_preload html) as [res|] eqn:E; [intros _|congruence].
    destruct (re_search_sound _ _ _ E) as (pre & t & -> & Ht).
    destruct (match_preload_sound _ _ Ht) as (c & url & post & -> & Hc & Hurl & _).
    now exists pre, c, url, post.
  - intros (pre & c & url & post & -> & Hc & Hurl).
    apply re_search_complete. now apply match_preload_complete.
Qed.

Lemma contains_restricted_logo (html : bytes) :
  contains restricted_logo html = true <->
  exists a b, html = a ++ restricted_logo ++ b.
Proof.
  split; [apply contains_elim|].
  intros (a & b & ->). apply contains_intro.
Qed.

(** C9: a page body without the marker of a restricted page and without an
    assignment that the pattern matches raises [ParsingError]. *)
Theorem get_image_url_from_page_no_image (html : bytes) :
  (forall a b, html <> a ++ restricted_logo ++ b) ->
  ~ has_preload html ->
  get_image_url_from_page html
  = inl (ParsingError "No image found in HTML page").
Proof.
  intros Hlogo Himg. unfold get_image_url_from_page.
  apply contains_false in Hlogo. rewrite Hlogo.
  destruct (re_search re_preload html) as [m|] eqn:E; [|reflexivity].
  destruct Himg. apply re_search_preload. congruence.
Qed.

Lemma get_image_url_from_page_no_image_witness :
  get_image_url_from_page "<html><body>preloadImg.src = 'http://x/img</body></html>"
  = inl (ParsingError "No image found in HTML page").
Proof.
  apply get_image_url_from_page_no_image.
  - apply contains_false. reflexivity.
  - intros H. apply re_search_preload in H. now apply H.
Defined.

(** C10: the marker of a restricted page decides before the search for the
    image: a body that has the marker gives [None], also when it has an
    assignment that the search would find. *)
Theorem get_image_url_from_page_restricted_first (html a b : bytes) :
  html = a ++ restricted_logo ++ b ->
  has_preload html ->
  get_image_url_from_page html = inr None
  /\ re_search re_preload html <> None.
Proof.
  intros -> Himg. split; [|now apply re_search_preload].
  unfold get_image_url_from_page. now rewrite contains_intro.
Qed.

Lemma get_image_url_from_page_restricted_first_witness :
  get_image_url_from_page
    "<img src='/googlebooks/restricted_logo.gif'> preloadImg.src = 'http://x/i?w=1';"
  = inr None.
Proof.
  refine (proj1 (get_image_url_from_page_restricted_first _
                   "<img src='" "'> preloadImg.src = 'http://x/i?w=1';" eq_refl _)).
  exists "<img src='/googlebooks/restricted_logo.gif'> ", "."%char,
         "http://x/i?w=1", ";".
  repeat split; [discriminate|].
  repeat constructor; discriminate.
Defined.

(** ** The width of the image *)

Lemma none_at_all (P : bytes -> bool) (s : bytes) :
  forallb (fun n => negb (P (skipn n s))) (seq 0 (S (length s))) = true ->
  forall a r, s = a ++ r -> P r = false.
Proof.
  intros H a r Hs. destruct (P r) eqn:E; [exfalso|reflexivity].
  pose proof (none_before P s _ H a r Hs E) as Hle.
  rewrite Hs, length_app in Hle. lia.
Qed.

Lemma drop_while_all (p : ascii -> bool) (v post : bytes) :
  Forall (fun c => p c = true) v ->
  (post = [] \/ exists c r, post = c :: r /\ p c = false) ->
  drop_while p (v ++ post) = post.
Proof.
  intros Hv Hpost. induction Hv as [|c v Hc Hv IH]; simpl.
  - destruct Hpost as [->|(c & r & -> & Hc)]; simpl; [reflexivity|now rewrite Hc].
  - now rewrite Hc, IH.
Qed.

Lemma match_re_width (s : bytes) :
  match_here re_width None s =
  match width_here s with
  | Some (d, r) => Some (Some d, r)
  | None => None
  end.
Proof.
  unfold re_width, width_here. rewrite match_here_lit.
  destruct (strip_prefix "w=" s) as [[|c r]|]; try reflexivity.
  change (match_here [Atom digit Plus true] None (c :: r))
    with (if digit c
          then rep_greedy digit (fun m rest => match_here [] (Some m) rest) [c] r
          else None).
  destruct (digit c); [|reflexivity].
  now rewrite (rep_greedy_last digit true None).
Qed.

Lemma width_here_digits (ds post : bytes) :
  ds <> [] -> Forall (fun c => digit c = true) ds ->
  (post = [] \/ exists c r, post = c :: r /\ digit c = false) ->
  width_here ("w=" ++ ds ++ post) = Some (ds, post).
Proof.
  intros Hds Hall Hpost. unfold width_here. rewrite strip_prefix_app.
  destruct ds as [|c ds]; [contradiction|].
  inversion Hall as [|? ? Hc Hall']; subst.
  rewrite <- app_comm_cons, Hc.
  now rewrite take_while_all, drop_while_all.
Qed.

Lemma width_here_found (d : ascii) (r : bytes) :
  digit d = true -> is_some (width_here ("w=" ++ d :: r)) = true.
Proof.
  intros Hd. unfold width_here. now rewrite strip_prefix_app, Hd.
Qed.

Lemma width_here_Some (s : bytes) (m : bytes * bytes) :
  width_here s = Some m ->
  exists d r, s = "w=" ++ d :: r /\ digit d = true.
Proof.
  unfold width_here.
  destruct (strip_prefix "w=" s) as [[|c r]|] eqn:E; try discriminate.
  destruct (digit c) eqn:F; [|discriminate]. intros _.
  exists c, r. split; [now apply strip_prefix_Some|assumption].
Qed.

Lemma re_sub_fuel_cons (n : nat) (re : regex) (repl : bytes) (c : ascii)
    (s : bytes) :
  re_sub_fuel (S n) re repl (c :: s) =
  match match_here re None (c :: s) with
  | Some (_, rest) => repl ++ re_sub_fuel n re repl rest
  | None => c :: re_sub_fuel n re repl s
  end.
Proof. reflexivity. Qed.

(** Without a match there is nothing to replace. *)
Lemma re_sub_width_none (repl s : bytes) (n : nat) :
  (forall a d r, s = a ++ "w=" ++ d :: r -> digit d = false) ->
  re_sub_fuel n re_width repl s = s.
Proof.
  revert s; induction n as [|n IH]; intros s H; [reflexivity|].
  destruct s as [|c s]; [reflexivity|].
  rewrite re_sub_fuel_cons, match_re_width.
  destruct (width_here (c :: s)) as [m|] eqn:E.
  - destruct (width_here_Some _ _ E) as (d & r & Hs & Hd).
    rewrite (H [] d r Hs) in Hd. discriminate.
  - f_equal. apply IH. intros a d r ->. now apply (H (c :: a) d r).
Qed.

(** The leftmost [w=] that digits follow is rewritten; what is before it
    and what is after it, when it has no such parameter, stay. *)
Lemma re_sub_width (repl pre ds post : bytes) (n : nat) :
  ds <> [] -> Forall (fun c => digit c = true) ds ->
  (post = [] \/ exists c r, post = c :: r /\ digit c = false) ->
  (forall a d r, pre ++ "w=" ++ ds ++ post = a ++ "w=" ++ d :: r ->
                 digit d = true -> length pre <= length a) ->
  (forall a d r, post = a ++ "w=" ++ d :: r -> digit d = false) ->
  length (pre ++ "w=" ++ ds ++ post) <= n ->
  re_sub_fuel n re_width repl (pre ++ "w=" ++ ds ++ post) = pre ++ repl ++ post.
Proof.
  intros Hds Hall Hpost Hleft Hnone. revert n Hleft.
  induction pre as [|x pre IH]; intros n Hleft Hn.
  - destruct n as [|n]; [simpl in Hn; lia|].
    pose proof (width_here_digits ds post Hds Hall Hpost) as E.
    change ([] ++ ?t) with t in *.
    change ("w=" ++ ds ++ post) with ("w"%char :: "="%char :: ds ++ post) in *.
    rewrite re_sub_fuel_cons, match_re_width, E.
    now rewrite re_sub_width_none.
  - destruct n as [|n]; [simpl in Hn; lia|].
    rewrite <- app_comm_cons, re_sub_fuel_cons, match_re_width.
    destruct (width_here (x :: pre ++ "w=" ++ ds ++ post)) as [m|] eqn:E.
    + destruct (width_here_Some _ _ E) as (d & r & Hs & Hd).
      specialize (Hleft [] d r Hs Hd). simpl in Hleft. lia.
    + rewrite <- app_comm_cons. f_equal. apply IH.
      * intros a d r Hs Hd.
        assert (Hx : (x :: pre) ++ "w=" ++ ds ++ post = (x :: a) ++ "w=" ++ d :: r)
          by (rewrite <- !app_comm_cons; now rewrite Hs).
        specialize (Hleft _ _ _ Hx Hd). simpl in Hleft. lia.
      * change (S (length (pre ++ "w=" ++ ds ++ post)) <= S n) in Hn. lia.
Qed.

(** ** The body of the loop *)

Section Body.
Context {R : Runtime}.

Lemma download_book_body_page (info : info) (page_start : Z) (page0 : nat)
    (pid : bytes) (history : list bytes) (html : bytes) :
  lib_download history AGENT (prefix info ++ "&pg=" ++ pid) = inr html ->
  download_book_body info page_start page0 (JString pid) history =
  let history1 := history ++ [prefix info ++ "&pg=" ++ pid] in
  match get_image_url_from_page html with
  | inl e => (inl e, history1)
  | inr (Some ((_ :: _) as image_url0)) =>
      match py_str (fst (max_resolution info)) with
      | inl e => (inl e, history1)
      | inr w =>
          let image_url := re_sub re_width ("w=" ++ w) image_url0 in
          match lib_download history1 AGENT image_url with
          | inl e => (inl e, history1 ++ [image_url])
          | inr image_data =>
              (inr (Some (info, (Z.of_nat page0 + page_start)%Z, image_data)),
               history1 ++ [image_url])
          end
      end
  | inr _ => (inr None, history1)
  end.
Proof.
  intros Hpage. unfold download_book_body, get_page_url, download.
  rewrite Hpage. cbv zeta.
  destruct (get_image_url_from_page html) as [e|[[|c url]|]]; try reflexivity.
  destruct (max_resolution info) as [width height]. cbn [fst].
  destruct (py_str width) as [e|w]; [reflexivity|].
  destruct (lib_download _ AGENT _); reflexivity.
Qed.

(** C8: a page body with the marker of a restricted page resolves to
    [None] without an exception, and the body of the loop then yields
    nothing and requests nothing but the page itself. *)
Theorem restricted_page_no_further_fetch (info : info) (page_start : Z)
    (page0 : nat) (pid : bytes) (history : list bytes) (html a b : bytes) :
  html = a ++ restricted_logo ++ b ->
  lib_download history AGENT (prefix info ++ "&pg=" ++ pid) = inr html ->
  get_image_url_from_page html = inr None
  /\ download_book_body info page_start page0 (JString pid) history
     = (inr None, history ++ [prefix info ++ "&pg=" ++ pid]).
Proof.
  intros Hhtml Hpage.
  assert (E : get_image_url_from_page html = inr None).
  { unfold get_image_url_from_page. subst html. now rewrite contains_intro. }
  split; [exact E|].
  rewrite (download_book_body_page _ _ _ _ _ _ Hpage), E. reflexivity.
Qed.

(** For an image URL that has one [w=] with digits and no other, the URL
    that the body of the loop requests for the image is the URL taken from
    the page with those digits replaced by the width of
    [max_resolution]. *)
Theorem image_url_width_rewritten (info : info) (page_start : Z)
    (page0 : nat) (pid : bytes) (history : list bytes) (html : bytes)
    (W : Z) (H : json) (pre ds post : bytes) :
  max_resolution info = (JInt W, H) ->
  lib_download history AGENT (prefix info ++ "&pg=" ++ pid) = inr html ->
  get_image_url_from_page html = inr (Some (pre ++ "w=" ++ ds ++ post)) ->
  ds <> [] -> Forall (fun c => digit c = true) ds ->
  (post = [] \/ exists c r, post = c :: r /\ digit c = false) ->
  (forall a d r, pre ++ "w=" ++ ds ++ post = a ++ "w=" ++ d :: r ->
                 digit d = true -> length pre <= length a) ->
  (forall a d r, post = a ++ "w=" ++ d :: r -> digit d = false) ->
  re_sub re_width ("w=" ++ str_of_Z W) (pre ++ "w=" ++ ds ++ post)
  = pre ++ "w=" ++ str_of_Z W ++ post
  /\ snd (download_book_body info page_start page0 (JString pid) history)
     = history ++ [prefix info ++ "&pg=" ++ pid]
               ++ [pre ++ "w=" ++ str_of_Z W ++ post].
Proof.
  intros Hres Hpage Himg Hds Hall Hpost Hleft Hnone.
  assert (E : re_sub re_width ("w=" ++ str_of_Z W) (pre ++ "w=" ++ ds ++ post)
              = pre ++ "w=" ++ str_of_Z W ++ post).
  { unfold re_sub. rewrite re_sub_width by auto.
    now rewrite <- (app_assoc "w=" (str_of_Z W) post). }
  split; [exact E|].
  rewrite (download_book_body_page _ _ _ _ _ _ Hpage), Himg, Hres.
  cbn [fst]. rewrite py_str_int. cbv zeta.
  destruct (pre ++ "w=" ++ ds ++ post) as [|c url] eqn:Eurl.
  { destruct pre; discriminate Eurl. }
  rewrite E.
  match goal with
  | |- context [lib_download (history ++ ?p) AGENT ?u] =>
      destruct (lib_download (history ++ p) AGENT u)
  end; cbv beta iota zeta delta [snd]; rewrite <- app_assoc; reflexivity.
Qed.

End Body.

Import Fixture.

Lemma restricted_page_no_further_fetch_witness :
  get_image_url_from_page restricted_page = inr None
  /\ @download_book_body (runtime web) cover_info 0 1 (JString "p1") []
     = (inr None, [("http://x/b?id=B1&pg=p1" : bytes)]).
Proof.
  exact (@restricted_page_no_further_fetch (runtime web) cover_info 0 1 "p1" []
           restricted_page "<img src='" "'>" eq_refl eq_refl).
Defined.

Lemma image_url_width_rewritten_witness :
  snd (@download_book_body (runtime web) cover_info 0 0 (JString "p0") [])
  = [("http://x/b?id=B1&pg=p0" : bytes); ("http://x/img?w=2000&id=1" : bytes)].
Proof.
  refine (proj2 (@image_url_width_rewritten (runtime web) cover_info 0 0 "p0" []
                   image_page 2000 (JInt 3000) "http://x/img?" "100" "&id=1"
                   eq_refl eq_refl eq_refl _ _ _ _ _)).
  - discriminate.
  - repeat constructor.
  - right. exists "&"%char, "id=1". now split.
  - intros a d r Hs Hd.
    eapply (none_before (fun t => is_some (width_here t)));
      [|exact Hs|now apply width_here_found].
    reflexivity.
  - intros a d r Hs. destruct (digit d) eqn:Hd; [|reflexivity].
    rewrite <- (width_here_found d r Hd).
    apply (none_at_all (fun t => is_some (width_here t)) "&id=1" eq_refl a _ Hs).
Defined.

(** ** The loop of the driver *)

Section Loop.
Context {R : Runtime}.


Lemma download_book_loop_cons (info : info) (page_start : Z) (page0 : nat)
    (page_id : json) (rest : list json) (history : list bytes) :
  download_book_loop info page_start page0 (page_id :: rest) history =
  match download_book_body info page_start page0 page_id history with
  | (inl e, history') => (Run [] (Some e), history')
  | (inr y, history') =>
      let '(r, history'') :=
        download_book_loop info page_start (S page0) rest history' in
      (Run (match y with
            | Some it => it :: yielded r
            | None => yielded r
            end) (raised r), history'')
  end.
Proof. reflexivity. Qed.


End Loop.

(** ** The driver *)

Section Driver.
Context {R : Runtime}.



End Driver.



(** ** Text between two literals *)

Lemma first_occurrence (l s : bytes) (k : nat) :
  forallb (fun n => negb (is_some (strip_prefix l (skipn n s)))) (seq 0 k) = true ->
  forall a r, s = a ++ l ++ r -> k <= length a.
Proof.
  intros H a r Hs.
  apply (none_before (fun t => is_some (strip_prefix l t)) s k H a (l ++ r) Hs).
  now rewrite strip_prefix_app.
Qed.

Lemma re_search_between (p : ascii -> bool) (l1 l2 s m : bytes) :
  between l1 l2 s m ->
  Forall (fun c => p c = true) m ->
  exists post,
    re_search (lit l1 ++ Atom p LazyStar true :: lit l2) s = Some (Some m, post).
Proof.
  intros (pre & post & -> & Hfirst & Hnext) Hm. exists post.
  apply re_search_at.
  - intros a b -> Hb. rewrite match_here_lit.
    destruct (strip_prefix l1 (b ++ l1 ++ m ++ l2 ++ post)) as [r|] eqn:E;
      [exfalso|reflexivity].
    apply strip_prefix_Some in E.
    assert (Hs : (a ++ b) ++ l1 ++ m ++ l2 ++ post = a ++ l1 ++ r)
      by (now rewrite <- app_assoc, E).
    specialize (Hfirst a r Hs). rewrite length_app in Hfirst.
    destruct b; [contradiction|simpl in Hfirst; lia].
  - rewrite match_here_lit, strip_prefix_app.
    apply match_lazy_group; [assumption|].
    intros m1 m2 -> Hm2.
    destruct (strip_prefix l2 (m2 ++ l2 ++ post)) as [r|] eqn:E;
      [exfalso|reflexivity].
    apply strip_prefix_Some in E.
    assert (Hs : (m1 ++ m2) ++ l2 ++ post = m1 ++ l2 ++ r)
      by (now rewrite <- app_assoc, E).
    specialize (Hnext m1 r Hs). rewrite length_app in Hnext.
    destruct m2; [contradiction|simpl in Hnext; lia].
Qed.

Lemma re_search_oc_run (cover_html args : bytes) :
  oc_run_args_text cover_html args ->
  exists m, re_search re_oc_run cover_html = Some m /\ group1 m = args.
Proof.
  intros [Hb Hline].
  destruct (re_search_between dot "_OC_Run(" ");" cover_html args Hb) as [post E].
  - eapply Forall_impl; [|exact Hline]. intros c. apply dot_newline.
  - exists (Some args, post). split; [exact E|reflexivity].
Qed.

(** ** The metadata extractor *)

Section GetInfo.
Context {R : Runtime}.

Lemma get_info_decoded_args (encoding cover_html args : bytes) :
  oc_run_args_text cover_html args ->
  get_info_decoded encoding cover_html =
  (oc_run_args <- json_loads ("[" ++ args ++ "]") encoding ;;
   n <- py_len oc_run_args ;;
   if (n <? 2)%nat then
     raise (ParsingError
              "Expecting at least 2 arguments in function: OC_Run()")
   else
     ' (pages_info, book_info) <- py_first_two oc_run_args ;;
     has_page <- py_in "page" pages_info ;;
     if negb has_page then raise (ParsingError "Cannot find page info")
     else
       pages <- py_getitem pages_info "page" ;;
       entries <- py_iter pages ;;
       keys <- map_result (fun d => py_getitem d "order") entries ;;
       page_ids <- map_result (fun x => py_getitem x "pid")
                     (map snd (sorted_by py_lt (combine keys entries))) ;;
       match page_ids with
       | [] => raise (ParsingError "No page_ids found")
       | _ :: _ =>
           prefix0 <- py_getitem pages_info "prefix" ;;
           prefix <- match prefix0 with
                     | JString p => raw_unicode_escape p
                     | _ => raise AttributeError
                     end ;;
           mw <- py_getitem book_info "max_resolution_image_width" ;;
           mh <- py_getitem book_info "max_resolution_image_height" ;;
           title0 <- py_getitem book_info "title" ;;
           title <- get_unescape_entities title0 ;;
           attribution0 <- py_getitem book_info "attribution" ;;
           attribution1 <- match attribution0 with
                           | JString a =>
                               inr (JString (re_sub_anchored re_by [] a))
                           | _ => raise TypeError
                           end ;;
           attribution <- get_unescape_entities attribution1 ;;
           inr {| prefix := prefix;
                  page_ids := page_ids;
                  title := title;
                  attribution := attribution;
                  max_resolution := (mw, mh) |}
       end).
Proof.
  intros Hargs. destruct (re_search_oc_run _ _ Hargs) as (m & Hm & Hg).
  unfold get_info_decoded, get_info_parsed. now rewrite Hm, Hg.
Qed.

(** C4 (as amended): with the argument text of [_OC_Run] found, an
    exception of [json.loads] leaves [get_info] as it is, and a parse
    that gives fewer than two elements raises [ParsingError]. *)
Theorem get_info_parse_errors (cover_html encoding args : bytes) :
  get_info_encoding cover_html = inr encoding ->
  oc_run_args_text cover_html args ->
  (forall e, json_loads ("[" ++ args ++ "]") encoding = inl e ->
             get_info cover_html = inl e)
  /\ (forall v n, json_loads ("[" ++ args ++ "]") encoding = inr v ->
                  py_len v = inr n -> n < 2 ->
                  get_info cover_html
                  = inl (ParsingError
                           "Expecting at least 2 arguments in function: OC_Run()")).
Proof.
  intros Henc Hargs. unfold get_info. rewrite Henc. cbn [bind].
  rewrite (get_info_decoded_args _ _ _ Hargs). split.
  - intros e ->. reflexivity.
  - intros v n -> Hn Hlt. cbn [bind]. rewrite Hn. cbn [bind].
    apply Nat.ltb_lt in Hlt. now rewrite Hlt.
Qed.

End GetInfo.

Lemma between_checked (l1 l2 pre m post : bytes) :
  forallb (fun n => negb (is_some (strip_prefix l1
                                     (skipn n (pre ++ l1 ++ m ++ l2 ++ post)))))
          (seq 0 (length pre)) = true ->
  forallb (fun n => negb (is_some (strip_prefix l2 (skipn n (m ++ l2 ++ post)))))
          (seq 0 (length m)) = true ->
  between l1 l2 (pre ++ l1 ++ m ++ l2 ++ post) m.
Proof.
  intros H1 H2. exists pre, post. split; [reflexivity|]. split.
  - now apply first_occurrence.
  - now apply first_occurrence.
Qed.

Lemma no_newline_checked (s : bytes) :
  forallb dot s = true -> Forall (fun c => c <> "010"%char) s.
Proof.
  rewrite forallb_forall, Forall_forall. intros H c Hc.
  apply dot_newline. now apply H.
Qed.

Lemma get_info_parse_errors_witness :
  @get_info (runtime []) "<script>_OC_Run(x);</script>" = inl ValueError
  /\ @get_info (runtime []) (dq "<script>_OC_Run({'page':[]});</script>")
     = inl (ParsingError "Expecting at least 2 arguments in function: OC_Run()").
Proof.
  split.
  - refine (proj1 (@get_info_parse_errors (runtime [])
                     "<script>_OC_Run(x);</script>" "iso8859-15" "x" eq_refl _)
              ValueError eq_refl).
    split; [|now apply no_newline_checked].
    now apply (between_checked "_OC_Run(" ");" "<script>" "x" "</script>").
  - refine (proj2 (@get_info_parse_errors (runtime [])
                     (dq "<script>_OC_Run({'page':[]});</script>") "iso8859-15"
                     (dq "{'page':[]}") eq_refl _)
              (JArray [JObject [("page" : bytes, JArray [])]]) 1
              eq_refl eq_refl (le_n 2)).
    split; [|now apply no_newline_checked].
    now apply (between_checked "_OC_Run(" ");" "<script>" (dq "{'page':[]}")
                 "</script>").
Defined.

(** C4 as the specification states it fails: the argument text [x] is no
    structured data, [json.loads] raises [ValueError], and that exception,
    not [ParsingError], leaves [get_info]. *)
Lemma get_info_json_error_not_ParsingError :
  json_loads_7bit "[x]" "iso8859-15" = inl ValueError
  /\ @get_info (runtime []) "<script>_OC_Run(x);</script>" = inl ValueError
  /\ is_ParsingError (@get_info (runtime []) "<script>_OC_Run(x);</script>")
     = false.
Proof. repeat split. Qed.

Section PageIds.
Context {R : Runtime}.

Lemma get_info_decoded_page_ids (encoding cover_html : bytes) (info : info) :
  get_info_decoded encoding cover_html = inr info -> page_ids info <> [].
Proof.
  unfold get_info_decoded, get_info_parsed.
  destruct (re_search re_oc_run cover_html) as [m|]; [|discriminate].
  repeat (cbn [bind raise];
          match goal with
          | |- inl _ = inr _ -> _ => discriminate
          | |- context [bind ?x _] => destruct x
          | |- context [if ?b then _ else _] => destruct b
          | |- context [match ?p with (_, _) => _ end] => destruct p
          | |- context [match ?l with [] => _ | _ :: _ => _ end] => destruct l
          end).
  all: try discriminate.
  all: intros [= <-]; discriminate.
Qed.

(** Metadata that [get_info] returns has page identifiers; a first
    element that is a dict without the key [page] and an empty collection
    of pages both raise [ParsingError]. *)
Theorem get_info_page_ids_nonempty (cover_html : bytes) :
  (forall info, get_info cover_html = inr info -> page_ids info <> [])
  /\ (forall encoding args members book_info rest,
        get_info_encoding cover_html = inr encoding ->
        oc_run_args_text cover_html args ->
        json_loads ("[" ++ args ++ "]") encoding
        = inr (JArray (JObject members :: book_info :: rest)) ->
        (dict_get "page" members = None ->
         get_info cover_html = inl (ParsingError "Cannot find page info"))
        /\ (forall pages,
              dict_get "page" members = Some pages ->
              py_iter pages = inr [] ->
              get_info cover_html = inl (ParsingError "No page_ids found"))).
Proof.
  split.
  - intros info. unfold get_info.
    destruct (get_info_encoding cover_html) as [e|encoding]; [discriminate|].
    apply get_info_decoded_page_ids.
  - intros encoding args members book_info rest Henc Hargs Hjson.
    unfold get_info. rewrite Henc. cbn [bind].
    rewrite (get_info_decoded_args _ _ _ Hargs), Hjson.
    cbn [bind py_len py_first_two length Nat.ltb Nat.leb py_in py_getitem].
    split.
    + intros ->. reflexivity.
    + intros pages Hd Hi. rewrite Hd. cbn [bind is_some negb]. now rewrite Hi.
Qed.

End PageIds.

Lemma get_info_page_ids_nonempty_witness :
  page_ids cover_info <> []
  /\ @get_info (runtime [])
       (dq "_OC_Run({'prefix':'http://x/b?id=B1'},{'title':'T'});")
     = inl (ParsingError "Cannot find page info")
  /\ @get_info (runtime [])
       (dq "_OC_Run({'page':[],'prefix':'http://x/b?id=B1'},{'title':'T'});")
     = inl (ParsingError "No page_ids found").
Proof.
  split; [|split].
  - exact (proj1 (@get_info_page_ids_nonempty (runtime []) cover_html)
             cover_info eq_refl).
  - refine (proj1 (proj2 (@get_info_page_ids_nonempty (runtime [])
                            (dq "_OC_Run({'prefix':'http://x/b?id=B1'},{'title':'T'});"))
                     "iso8859-15" (dq "{'prefix':'http://x/b?id=B1'},{'title':'T'}")
                     [("prefix" : bytes, JString "http://x/b?id=B1")]
                     (JObject [("title" : bytes, JString "T")]) []
                     eq_refl _ eq_refl) eq_refl).
    split; [|now apply no_newline_checked].
    now apply (between_checked "_OC_Run(" ");" []
                 (dq "{'prefix':'http://x/b?id=B1'},{'title':'T'}") []).
  - refine (proj2 (proj2 (@get_info_page_ids_nonempty (runtime [])
                            (dq "_OC_Run({'page':[],'prefix':'http://x/b?id=B1'},{'title':'T'});"))
                     "iso8859-15"
                     (dq "{'page':[],'prefix':'http://x/b?id=B1'},{'title':'T'}")
                     [("page" : bytes, JArray []);
                      ("prefix" : bytes, JString "http://x/b?id=B1")]
                     (JObject [("title" : bytes, JString "T")]) []
                     eq_refl _ eq_refl) (JArray []) eq_refl eq_refl).
    split; [|now apply no_newline_checked].
    now apply (between_checked "_OC_Run(" ");" []
                 (dq "{'page':[],'prefix':'http://x/b?id=B1'},{'title':'T'}") []).
Defined.

(** ** Sorting the pages *)

Section SortedBy.
Context {R : Runtime} {A : Type}.

Lemma insert_by_perm (x : json * A) (l : list (json * A)) :
  Permutation (insert_by py_lt x l) (x :: l).
Proof.
  induction l as [|y l IH]; simpl; [reflexivity|].
  destruct (py_lt (fst y) (fst x)); [|reflexivity].
  rewrite IH. apply perm_swap.
Qed.

Lemma sorted_by_perm (l : list (json * A)) : Permutation (sorted_by py_lt l) l.
Proof.
  induction l as [|x l IH]; simpl; [reflexivity|].
  unfold sorted_by in IH. rewrite insert_by_perm. now constructor.
Qed.

Lemma insert_by_sorted (x : json * A) (l : list (json * A)) :
  int_keyed x -> Forall int_keyed l ->
  Sorted key_le l -> Sorted key_le (insert_by py_lt x l).
Proof.
  intros [zx Hx] Hl Hs. induction Hs as [|y l Hs IH Hhd]; simpl.
  - repeat constructor.
  - inversion Hl as [|? ? [zy Hy] Hl']; subst.
    rewrite Hx, Hy, py_lt_int.
    destruct (Z.ltb_spec zy zx) as [Hlt|Hge].
    + constructor; [now apply IH|].
      destruct l as [|y' l]; simpl.
      * constructor. unfold key_le. rewrite Hx, Hy. simpl. lia.
      * inversion Hhd; subst.
        destruct (py_lt (fst y') (fst x)); constructor; auto.
        unfold key_le. rewrite Hx, Hy. simpl. lia.
    + constructor; [now constructor|].
      constructor. unfold key_le. rewrite Hx, Hy. simpl. lia.
Qed.

Lemma sorted_by_sorted (l : list (json * A)) :
  Forall int_keyed l -> Sorted key_le (sorted_by py_lt l).
Proof.
  induction l as [|x l IH]; intros Hl; simpl; [constructor|].
  inversion Hl; subst. apply insert_by_sorted; [assumption| |now apply IH].
  eapply Permutation_Forall; [|eassumption].
  symmetry. apply sorted_by_perm.
Qed.

End SortedBy.

Section PageOrder.
Context {R : Runtime}.

Lemma page_entries_keys (entries : list json) (ops : list (Z * json)) :
  Forall2 (fun e op => page_entry e (fst op) (snd op)) entries ops ->
  map_result (fun d => py_getitem d "order") entries
  = inr (map (fun op => JInt (fst op)) ops).
Proof.
  induction 1 as [|e op entries ops (ms & -> & Ho & Hp) _ IH]; [reflexivity|].
  cbn [map_result py_getitem]. rewrite Ho. cbn [bind]. rewrite IH. reflexivity.
Qed.

Lemma page_entries_keyed (entries : list json) (ops : list (Z * json)) :
  Forall2 (fun e op => page_entry e (fst op) (snd op)) entries ops ->
  Forall keyed_entry (combine (map (fun op => JInt (fst op)) ops) entries)
  /\ map (fun x => (int_key (fst x), entry_pid (snd x)))
         (combine (map (fun op => JInt (fst op)) ops) entries) = ops.
Proof.
  induction 1 as [|e [o p] entries ops (ms & -> & Ho & Hp) _ [IH1 IH2]].
  - split; [constructor|reflexivity].
  - split.
    + constructor; [|exact IH1]. split; [now exists o|now exists ms, p].
    + cbn [map combine fst snd int_key entry_pid] in *.
      rewrite Hp, IH2. reflexivity.
Qed.

Lemma keyed_entries_pids (l : list (json * json)) :
  Forall keyed_entry l ->
  map_result (fun x => py_getitem x "pid") (map snd l)
  = inr (map (fun x => entry_pid (snd x)) l).
Proof.
  induction 1 as [|x l (_ & ms & p & Hx & Hp) _ IH]; [reflexivity|].
  cbn [map map_result]. rewrite Hx. cbn [py_getitem entry_pid].
  rewrite Hp. cbn [bind]. rewrite IH. reflexivity.
Qed.

End PageOrder.

Lemma order_le_trans : Relations_1.Transitive order_le.
Proof. intros a b c. unfold order_le. lia. Qed.

Lemma key_le_order_le (l : list (json * json)) :
  Sorted key_le l ->
  Sorted order_le (map (fun x => (int_key (fst x), entry_pid (snd x))) l).
Proof.
  induction 1 as [|x l Hs IH Hhd]; simpl; constructor; [exact IH|].
  destruct Hhd; simpl; constructor. assumption.
Qed.

Section PageOrderOfInfo.
Context {R : Runtime}.

(** C3: the page identifiers of the metadata are those of the entries of
    the page collection, in ascending order of the integers that the
    entries have for [order], whatever the order of the entries. *)
Theorem get_info_sorts_by_order (cover_html encoding args : bytes)
    (members : list (bytes * json)) (book_info : json) (rest entries : list json)
    (ops : list (Z * json)) (info : info) :
  get_info_encoding cover_html = inr encoding ->
  oc_run_args_text cover_html args ->
  json_loads ("[" ++ args ++ "]") encoding
  = inr (JArray (JObject members :: book_info :: rest)) ->
  dict_get "page" members = Some (JArray entries) ->
  Forall2 (fun e op => page_entry e (fst op) (snd op)) entries ops ->
  get_info cover_html = inr info ->
  exists l,
    Permutation l ops
    /\ StronglySorted order_le l
    /\ page_ids info = map snd l.
Proof.
  intros Henc Hargs Hjson Hpage Hentries Hget.
  destruct (page_entries_keyed _ _ Hentries) as [Hkeyed Hops].
  set (kes := combine (map (fun op => JInt (fst op)) ops) entries) in *.
  assert (Hsorted : Forall keyed_entry (sorted_by py_lt kes)).
  { eapply Permutation_Forall; [|exact Hkeyed]. symmetry. apply sorted_by_perm. }
  exists (map (fun x => (int_key (fst x), entry_pid (snd x)))
              (sorted_by py_lt kes)).
  split; [|split].
  - rewrite <- Hops. apply Permutation_map, sorted_by_perm.
  - apply Sorted_StronglySorted; [exact order_le_trans|].
    apply key_le_order_le, sorted_by_sorted.
    eapply Forall_impl; [|exact Hkeyed]. now intros x [Hx _].
  - rewrite map_map. cbn [snd].
    unfold get_info in Hget. rewrite Henc in Hget. cbn [bind] in Hget.
    rewrite (get_info_decoded_args _ _ _ Hargs), Hjson in Hget.
    cbn [bind py_len py_first_two length Nat.ltb Nat.leb py_in py_getitem]
      in Hget.
    rewrite Hpage in Hget. cbn [bind is_some negb py_iter] in Hget.
    rewrite (page_entries_keys _ _ Hentries) in Hget. cbn [bind] in Hget.
    fold kes in Hget. rewrite (keyed_entries_pids _ Hsorted) in Hget.
    cbn [bind] in Hget. revert Hget.
    generalize (map (fun x => entry_pid (snd x)) (sorted_by py_lt kes)).
    intros pids.
    repeat (cbn [bind raise];
            match goal with
            | |- inl _ = inr _ -> _ => discriminate
            | |- context [bind ?x _] => destruct x
            | |- context [match ?l with [] => _ | _ :: _ => _ end] => destruct l
            end).
    all: try discriminate.
    all: intros [= <-]; reflexivity.
Qed.

End PageOrderOfInfo.

Lemma cover_html_args : oc_run_args_text cover_html cover_args.
Proof.
  split; [|now apply no_newline_checked].
  now apply (between_checked "_OC_Run(" ");"
               (dq "<html><input type='hidden' name='ie' value='UTF-8'><script>")
               cover_args "</script></html>").
Qed.

Lemma get_info_sorts_by_order_witness :
  @get_info (runtime []) cover_html = inr cover_info
  /\ exists l,
       Permutation l [(2%Z, JString "p2"); (0%Z, JString "p0"); (1%Z, JString "p1")]
       /\ StronglySorted order_le l
       /\ [JString "p0"; JString "p1"; JString "p2"] = map snd l.
Proof.
  split; [reflexivity|].
  refine (@get_info_sorts_by_order (runtime []) cover_html "utf-8" cover_args
            cover_members cover_book_info [] cover_entries
            [(2%Z, JString "p2"); (0%Z, JString "p0"); (1%Z, JString "p1")]
            cover_info eq_refl cover_html_args eq_refl eq_refl _ eq_refl).
  repeat constructor; eexists; repeat split.
Defined.

(** ** Quantified classes outside a group *)

Lemma match_star_sound (p : ascii -> bool) (re : regex) (g : option bytes)
    (s : bytes) (res : mresult) :
  match_here (Atom p Star false :: re) g s = Some res ->
  exists m r, s = m ++ r /\ Forall (fun c => p c = true) m
              /\ match_here re g r = Some res.
Proof.
  change (match_here (Atom p Star false :: re) g s)
    with (rep_greedy p (fun _ rest => match_here re g rest) [] s).
  intros H. destruct (rep_greedy_sound _ _ _ _ _ H) as (m & r & -> & Hm & Hk).
  now exists m, r.
Qed.

Lemma match_star_complete (p : ascii -> bool) (re : regex) (g : option bytes)
    (m r : bytes) :
  Forall (fun c => p c = true) m ->
  match_here re g r <> None ->
  match_here (Atom p Star false :: re) g (m ++ r) <> None.
Proof.
  intros Hm Hr.
  change (rep_greedy p (fun _ rest => match_here re g rest) [] (m ++ r) <> None).
  now apply rep_greedy_complete.
Qed.

Lemma match_plus_sound (p : ascii -> bool) (re : regex) (g : option bytes)
    (s : bytes) (res : mresult) :
  match_here (Atom p Plus false :: re) g s = Some res ->
  exists m r, s = m ++ r /\ m <> [] /\ Forall (fun c => p c = true) m
              /\ match_here re g r = Some res.
Proof.
  destruct s as [|c s]; [discriminate|].
  change (match_here (Atom p Plus false :: re) g (c :: s))
    with (if p c then rep_greedy p (fun _ rest => match_here re g rest) [c] s
          else None).
  destruct (p c) eqn:Hc; [|discriminate].
  intros H. destruct (rep_greedy_sound _ _ _ _ _ H) as (m & r & -> & Hm & Hk).
  exists (c :: m), r. repeat split; auto. discriminate.
Qed.

Lemma match_plus_complete (p : ascii -> bool) (re : regex) (g : option bytes)
    (m r : bytes) :
  m <> [] -> Forall (fun c => p c = true) m ->
  match_here re g r <> None ->
  match_here (Atom p Plus false :: re) g (m ++ r) <> None.
Proof.
  intros Hne Hm Hr. destruct m as [|c m]; [contradiction|].
  inversion Hm as [|? ? Hc Hm']; subst.
  change (match_here (Atom p Plus false :: re) g ((c :: m) ++ r))
    with (if p c then rep_greedy p (fun _ rest => match_here re g rest) [c] (m ++ r)
          else None).
  rewrite Hc. now apply rep_greedy_complete.
Qed.

Lemma match_opt_unfold (p : ascii -> bool) (re : regex) (g : option bytes)
    (s : bytes) :
  match_here (Atom p Opt false :: re) g s =
  match s with
  | c :: s' =>
      if p c then
        match match_here re g s' with
        | Some r => Some r
        | None => match_here re g s
        end
      else match_here re g s
  | [] => match_here re g s
  end.
Proof. reflexivity. Qed.

Lemma match_opt_sound (p : ascii -> bool) (re : regex) (g : option bytes)
    (s : bytes) (res : mresult) :
  match_here (Atom p Opt false :: re) g s = Some res ->
  (exists c r, s = c :: r /\ p c = true /\ match_here re g r = Some res)
  \/ match_here re g s = Some res.
Proof.
  rewrite match_opt_unfold. destruct s as [|c s]; [now right|].
  destruct (p c) eqn:Hc; [|now right].
  destruct (match_here re g s) as [r|] eqn:E; [|now right].
  intros [= <-]. left. now exists c, s.
Qed.

Lemma match_opt_skip (p : ascii -> bool) (re : regex) (g : option bytes)
    (s : bytes) :
  match_here re g s <> None -> match_here (Atom p Opt false :: re) g s <> None.
Proof.
  intros H. rewrite match_opt_unfold. destruct s as [|c s]; [assumption|].
  destruct (p c); [|assumption].
  destruct (match_here re g s); [discriminate|assumption].
Qed.

Lemma match_opt_take (p : ascii -> bool) (re : regex) (g : option bytes)
    (c : ascii) (s : bytes) :
  p c = true -> match_here re g s <> None ->
  match_here (Atom p Opt false :: re) g (c :: s) <> None.
Proof.
  intros Hc H. rewrite match_opt_unfold, Hc.
  destruct (match_here re g s); [discriminate|contradiction].
Qed.

(** ** The declaration of the encoding *)

Lemma nset_gt (c : ascii) : nset ">" c = true <-> c <> ">"%char.
Proof.
  unfold nset, ascii_in; simpl. rewrite orb_false_r.
  destruct (Ascii.eqb_spec c ">"); simpl; split; congruence.
Qed.

Lemma chr_eq (c d : ascii) : chr c d = true <-> d = c.
Proof. unfold chr. rewrite Ascii.eqb_eq. split; congruence. Qed.

Lemma match_input_ie_sound (s : bytes) (res : mresult) :
  match_here re_input_ie None s = Some res ->
  exists m w q r,
    s = "input" ++ m ++ w ++ "name=" ++ q ++ "ie" ++ r
    /\ Forall (fun c => c <> ">"%char) m
    /\ w <> [] /\ Forall (fun c => space c = true) w
    /\ (q = [] \/ q = [dquote]).
Proof.
  unfold re_input_ie. rewrite match_here_lit.
  destruct (strip_prefix "input" s) as [s1|] eqn:E1; [|discriminate].
  apply strip_prefix_Some in E1. subst s. intros H.
  apply match_star_sound in H. destruct H as (m & s2 & -> & Hm & H).
  apply match_plus_sound in H. destruct H as (w & s3 & -> & Hne & Hw & H).
  rewrite match_here_lit in H.
  destruct (strip_prefix "name=" s3) as [s4|] eqn:E4; [|discriminate].
  apply strip_prefix_Some in E4. subst s3.
  assert (Hm' : Forall (fun c => c <> ">"%char) m).
  { eapply Forall_impl; [|exact Hm]. intros c. apply nset_gt. }
  apply match_opt_sound in H. destruct H as [(c & s5 & -> & Hc & H)|H].
  - rewrite match_here_lit in H.
    destruct (strip_prefix "ie" s5) as [r|] eqn:E5; [|discriminate].
    apply strip_prefix_Some in E5. subst s5. apply chr_eq in Hc. subst c.
    exists m, w, [dquote], r. repeat split; auto.
  - rewrite match_here_lit in H.
    destruct (strip_prefix "ie" s4) as [r|] eqn:E5; [|discriminate].
    apply strip_prefix_Some in E5. subst s4.
    exists m, w, [], r. repeat split; auto.
Qed.

Lemma match_input_ie_complete (m w q r : bytes) :
  Forall (fun c => c <> ">"%char) m ->
  w <> [] -> Forall (fun c => space c = true) w ->
  (q = [] \/ q = [dquote]) ->
  match_here re_input_ie None
    ("input" ++ m ++ w ++ "name=" ++ q ++ "ie" ++ r) <> None.
Proof.
  intros Hm Hne Hw Hq. unfold re_input_ie.
  rewrite match_here_lit, strip_prefix_app.
  apply match_star_complete.
  { eapply Forall_impl; [|exact Hm]. intros c. apply nset_gt. }
  apply match_plus_complete; [assumption|assumption|].
  rewrite match_here_lit, strip_prefix_app.
  assert (Hie : match_here (lit "ie" ++ [Atom (chr dquote) Opt false]) None
                  ("ie" ++ r) <> None).
  { rewrite match_here_lit, strip_prefix_app.
    apply match_opt_skip. discriminate. }
  destruct Hq as [->| ->].
  - now apply match_opt_skip.
  - apply match_opt_take; [now apply chr_eq|exact Hie].
Qed.

Lemma re_search_input_ie (s : bytes) :
  re_search re_input_ie s <> None <-> ie_input s.
Proof.
  split.
  - destruct (re_search re_input_ie s) as [res|] eqn:E; [intros _|congruence].
    destruct (re_search_sound _ _ _ E) as (a & t & -> & Ht).
    destruct (match_input_ie_sound _ _ Ht) as (m & w & q & r & -> & H).
    now exists a, m, w, q, r.
  - intros (a & m & w & q & r & -> & Hm & Hne & Hw & Hq).
    apply re_search_complete. now apply match_input_ie_complete.
Qed.

Lemma split_nonempty (sep : ascii) (s : bytes) : split sep s <> [].
Proof.
  destruct s as [|c s]; simpl; [discriminate|].
  destruct (Ascii.eqb c sep); [discriminate|].
  destruct (split sep s); discriminate.
Qed.

Lemma split_head (sep : ascii) (s p : bytes) (ps : list bytes) :
  split sep s = p :: ps -> exists b, s = p ++ b.
Proof.
  revert p ps. induction s as [|c s IH]; simpl; intros p ps.
  - intros [= <- _]. now exists [].
  - destruct (Ascii.eqb c sep).
    + intros [= <- _]. now exists (c :: s).
    + destruct (split sep s) as [|p0 ps0] eqn:E.
      * intros [= <- _]. now exists s.
      * intros [= <- _]. destruct (IH _ _ eq_refl) as [b ->]. now exists b.
Qed.

Lemma split_In (sep : ascii) (s p : bytes) :
  In p (split sep s) -> exists a b, s = a ++ p ++ b.
Proof.
  revert p. induction s as [|c s IH]; simpl; intros p.
  - intros [<-|[]]. now exists [], [].
  - destruct (Ascii.eqb c sep).
    + intros [<-|Hin]; [now exists [], (c :: s)|].
      destruct (IH _ Hin) as (a & b & ->). now exists (c :: a), b.
    + destruct (split sep s) as [|p0 ps0] eqn:E.
      * intros [<-|[]]. now exists [], s.
      * destruct (split_head _ _ _ _ E) as [b0 Hs].
        intros [<-|Hin].
        -- exists [], b0. now rewrite Hs.
        -- destruct (IH p (or_intror Hin)) as (a & b & ->).
           now exists (c :: a), b.
Qed.

Lemma split_app_sep (sep : ascii) (a b : bytes) :
  split sep (a ++ sep :: b) = split sep a ++ split sep b.
Proof.
  induction a as [|c a IH]; simpl.
  - now rewrite Ascii.eqb_refl.
  - destruct (Ascii.eqb c sep); [now rewrite IH|].
    rewrite IH. pose proof (split_nonempty sep a) as Hne.
    destruct (split sep a); [contradiction|reflexivity].
Qed.

Lemma split_no_sep (sep : ascii) (s : bytes) :
  ~ In sep s -> split sep s = [s].
Proof.
  induction s as [|c s IH]; simpl; intros H; [reflexivity|].
  destruct (Ascii.eqb_spec c sep) as [->|_]; [now destruct H; left|].
  rewrite IH; [reflexivity|]. intros Hin. apply H. now right.
Qed.

Lemma filter_none {A : Type} (f : A -> bool) (l : list A) :
  (forall x, In x l -> f x = false) -> filter f l = [].
Proof.
  induction l as [|x l IH]; simpl; intros H; [reflexivity|].
  rewrite (H x) by now left. apply IH. intros y Hy. apply H. now right.
Qed.

Lemma ie_input_sub (a p b : bytes) : ie_input p -> ie_input (a ++ p ++ b).
Proof.
  intros (a0 & m & w & q & r & -> & H). exists (a ++ a0), m, w, q, (r ++ b).
  split; [|exact H]. now rewrite <- !app_assoc.
Qed.

Lemma ie_input_pieces (s : bytes) :
  ~ ie_input s ->
  filter (fun p => is_some (re_search re_input_ie p)) (split "<" s) = [].
Proof.
  intros H. apply filter_none. intros p Hp.
  destruct (re_search re_input_ie p) eqn:E; [exfalso|reflexivity].
  destruct (split_In _ _ _ Hp) as (a & b & ->).
  apply H, ie_input_sub, re_search_input_ie. congruence.
Qed.

Lemma ie_input_nonempty (s : bytes) : ie_input s -> s <> [].
Proof.
  intros (a & m & w & q & r & -> & _). destruct a; discriminate.
Qed.

Lemma first_ie_input_piece (pre tag post : bytes) :
  ~ ie_input pre -> ~ In "<"%char tag ->
  (post = [] \/ exists r, post = "<"%char :: r) ->
  ie_input tag ->
  first (filter (fun p => is_some (re_search re_input_ie p))
                (split "<" (pre ++ "<" ++ tag ++ post))) = Some tag.
Proof.
  intros Hpre Htag Hpost Hie.
  change (pre ++ "<" ++ tag ++ post) with (pre ++ "<"%char :: tag ++ post).
  rewrite split_app_sep, filter_app, (ie_input_pieces pre Hpre).
  assert (Hsplit : exists rest, split "<" (tag ++ post) = tag :: rest).
  { destruct Hpost as [->|[r ->]].
    - rewrite app_nil_r, split_no_sep by assumption. now exists [].
    - rewrite split_app_sep, split_no_sep by assumption. now eexists. }
  destruct Hsplit as [rest ->]. cbn [app filter].
  apply re_search_input_ie in Hie.
  destruct (re_search re_input_ie tag); [reflexivity|contradiction].
Qed.

Lemma get_info_encoding_default (cover_html : bytes) :
  ~ ie_input cover_html ->
  get_info_encoding cover_html = inr ("iso8859-15" : bytes).
Proof.
  intros H. unfold get_info_encoding.
  now rewrite (ie_input_pieces cover_html H).
Qed.

Lemma get_info_encoding_declared (pre tag post v : bytes) :
  ~ ie_input pre -> ~ In "<"%char tag ->
  (post = [] \/ exists r, post = "<"%char :: r) ->
  ie_input tag ->
  between ("value=" ++ [dquote]) [dquote] tag v ->
  Forall (fun c => c <> "010"%char) v ->
  get_info_encoding (pre ++ "<" ++ tag ++ post) = inr (lower v).
Proof.
  intros Hpre Htag Hpost Hie Hval Hline. unfold get_info_encoding.
  rewrite (first_ie_input_piece pre tag post Hpre Htag Hpost Hie).
  pose proof (ie_input_nonempty tag Hie) as Hne.
  destruct tag as [|c tag]; [contradiction|].
  destruct (re_search_between dot _ _ _ _ Hval) as [post' E].
  { eapply Forall_impl; [|exact Hline]. intros x. apply dot_newline. }
  unfold re_value. rewrite E. reflexivity.
Qed.

Section Encoding.
Context {R : Runtime}.

(** The variable [encoding] in terms of the patterns: a cover page no
    piece of which matches the declaration pattern gets [iso8859-15]; a
    cover page whose first matching piece is [tag] gets the text between
    the first [value=] with its opening double quote in the tag and the
    next double quote, in lower case. *)
Theorem get_info_encoding_of_ie_input (cover_html : bytes) :
  (~ ie_input cover_html ->
   get_info_encoding cover_html = inr ("iso8859-15" : bytes)
   /\ get_info cover_html = get_info_decoded "iso8859-15" cover_html)
  /\ (forall pre tag post v,
        cover_html = pre ++ "<" ++ tag ++ post ->
        ~ ie_input pre -> ~ In "<"%char tag ->
        (post = [] \/ exists r, post = "<"%char :: r) ->
        ie_input tag ->
        between ("value=" ++ [dquote]) [dquote] tag v ->
        Forall (fun c => c <> "010"%char) v ->
        get_info_encoding cover_html = inr (lower v)
        /\ get_info cover_html = get_info_decoded (lower v) cover_html).
Proof.
  split.
  - intros H. pose proof (get_info_encoding_default _ H) as E.
    split; [exact E|]. unfold get_info. now rewrite E.
  - intros pre tag post v -> Hpre Htag Hpost Hie Hval Hline.
    pose proof (get_info_encoding_declared _ _ _ _ Hpre Htag Hpost Hie Hval Hline)
      as E.
    split; [exact E|]. unfold get_info. now rewrite E.
Qed.

End Encoding.

Lemma not_ie_input_checked (s : bytes) :
  re_search re_input_ie s = None -> ~ ie_input s.
Proof. intros E H. now apply re_search_input_ie in H. Qed.

Lemma ie_input_checked (s : bytes) :
  is_some (re_search re_input_ie s) = true -> ie_input s.
Proof.
  intros E. apply re_search_input_ie.
  destruct (re_search re_input_ie s); [discriminate|discriminate E].
Qed.

Lemma not_In_checked (c : ascii) (s : bytes) :
  contains [c] s = false -> ~ In c s.
Proof. intros E H. apply contains_char in H. congruence. Qed.

Lemma get_info_encoding_of_ie_input_witness :
  get_info_encoding cover_html = inr ("utf-8" : bytes)
  /\ get_info_encoding "<script>_OC_Run(x);</script>"
     = inr ("iso8859-15" : bytes).
Proof.
  split.
  - refine (proj1 (proj2 (@get_info_encoding_of_ie_input (runtime []) cover_html)
                     "<html>" (dq "input type='hidden' name='ie' value='UTF-8'>")
                     (skipn 51 cover_html) "UTF-8" eq_refl _ _ _ _ _ _)).
    + now apply not_ie_input_checked.
    + now apply not_In_checked.
    + right. eexists. reflexivity.
    + now apply ie_input_checked.
    + now apply (between_checked ("value=" ++ [dquote]) [dquote]
                   (dq "input type='hidden' name='ie' ") "UTF-8" ">").
    + now apply no_newline_checked.
  - refine (proj1 (proj1 (@get_info_encoding_of_ie_input (runtime [])
                            "<script>_OC_Run(x);</script>") _)).
    now apply not_ie_input_checked.
Defined.

(** C7, the code at a failing input: the image URL of the page is
    [http://x/img?w=100&sw=3&id=1] and the width is 2000; the substitution
    rewrites the digits of [sw=] as well, and the body of the loop requests
    [http://x/img?w=2000&sw=2000&id=1], not the URL with only its width
    replaced. *)
Theorem image_url_rewrites_other_parameter :
  get_image_url_from_page two_w_page
  = inr (Some ("http://x/img?w=100&sw=3&id=1" : bytes))
  /\ re_sub re_width ("w=" ++ str_of_Z 2000) "http://x/img?w=100&sw=3&id=1"
     = ("http://x/img?w=2000&sw=2000&id=1" : bytes)
  /\ @download_book_body (runtime web_two_w) cover_info 0 0 (JString "p0") []
     = (inl IOError,
        [("http://x/b?id=B1&pg=p0" : bytes);
         ("http://x/img?w=2000&sw=2000&id=1" : bytes)]).
Proof. repeat split. Qed.

(** ** The identifier resolver on URLs whose [id=] are parameters *)

Lemma id_parameters_only_checked (s : bytes) :
  id_parameters_onlyb s = true -> id_parameters_only s.
Proof.
  unfold id_parameters_onlyb. rewrite forallb_forall. intros H a r Hs.
  specialize (H (length a)). rewrite in_seq in H.
  assert (Hlen : 0 <= length a < 0 + S (length s))
    by (rewrite Hs, length_app; lia).
  specialize (H Hlen).
  assert (E : skipn (length a) s = "id=" ++ r).
  { rewrite Hs, skipn_app, skipn_all, Nat.sub_diag. reflexivity. }
  rewrite E, strip_prefix_app in H. cbn [is_some] in H.
  destruct (exists_last (l := a)) as (a' & c & Ha).
  { intros ->. discriminate H. }
  exists a', c. split; [exact Ha|].
  rewrite Ha, length_app, Nat.add_comm in H. cbn [length plus] in H.
  rewrite Hs, Ha, <- app_assoc, nth_error_app2, Nat.sub_diag in H by lia.
  cbn [app nth_error] in H.
  unfold set, ascii_in in H. simpl in H. rewrite orb_false_r in H.
  apply orb_true_iff in H. rewrite !Ascii.eqb_eq in H. exact H.
Qed.

(** C2 (as amended): on a string without ["/"] the resolver is the
    identity; on a string with ["/"] in which every ["id="] begins a
    query parameter it returns the value of the first [id] parameter that
    has a value, up to the next [&], and it raises [ParsingError] exactly
    when no [id] parameter has a value. *)
Theorem get_id_from_string_id_parameter (s : bytes) :
  (~ In "/"%char s -> get_id_from_string s = inr s) /\
  (In "/"%char s -> id_parameters_only s ->
   (forall pre v post,
       s = pre ++ "id=" ++ v ++ post ->
       v <> [] -> Forall (fun c => c <> "&"%char) v ->
       (post = [] \/ exists r, post = "&"%char :: r) ->
       (forall a c r, s = a ++ "id=" ++ c :: r -> c <> "&"%char ->
                      length pre <= length a) ->
       get_id_from_string s = inr v) /\
   (is_ParsingError (get_id_from_string s) = true <->
    forall a r, s = a ++ "id=" ++ r -> r = [] \/ exists r', r = "&"%char :: r')).
Proof.
  destruct (get_id_from_string_leftmost_id s) as [Hplain Hurl].
  split; [exact Hplain|]. intros Hslash _. exact (Hurl Hslash).
Qed.

Lemma get_id_from_string_id_parameter_witness :
  get_id_from_string "ABC123" = inr ("ABC123" : bytes) /\
  get_id_from_string "http://books.google.com/books?hl=en&id=ABC123&pg=PA1"
  = inr ("ABC123" : bytes) /\
  is_ParsingError (get_id_from_string "http://books.google.com/books?hl=en")
  = true.
Proof.
  split; [|split].
  - apply (proj1 (get_id_from_string_id_parameter "ABC123")).
    intros H. vm_compute in H. intuition discriminate.
  - refine (proj1 (proj2 (get_id_from_string_id_parameter _) _ _)
              "http://books.google.com/books?hl=en&" "ABC123" "&pg=PA1"
              eq_refl _ _ _ _).
    + vm_compute. tauto.
    + now apply id_parameters_only_checked.
    + discriminate.
    + repeat constructor; discriminate.
    + right. now exists "pg=PA1".
    + intros a c r Hs Hc.
      eapply (none_before (fun t => is_some (id_here t)));
        [|exact Hs|now apply id_here_found].
      reflexivity.
  - apply (proj2 (get_id_from_string_id_parameter _)).
    + vm_compute. tauto.
    + now apply id_parameters_only_checked.
    + intros a r Hs. exfalso. revert Hs. apply contains_false. reflexivity.
Defined.

(** C2 as the specification states it fails: the URL has the query
    parameter [id], with an empty value, and the resolver raises
    [ParsingError]. *)
Lemma get_id_from_string_empty_id_raises :
  In "/"%char ("http://books.google.com/books?id=&hl=en" : bytes)
  /\ ("http://books.google.com/books?id=&hl=en" : bytes)
     = "http://books.google.com/books?" ++ "id=" ++ [] ++ "&hl=en"
  /\ is_ParsingError (get_id_from_string "http://books.google.com/books?id=&hl=en")
     = true.
Proof.
  repeat split.
  vm_compute. tauto.
Qed.

(** ** The page collection *)

Section PageCollection.
Context {R : Runtime}.

(** C5 (as amended): metadata that [get_info] returns has page
    identifiers; a first element that is a dict without the key [page] and
    an empty collection of pages both raise [ParsingError]; a first element
    that is no collection, and a value for [page] that is none, raise
    [TypeError]. *)
Theorem get_info_page_collection (cover_html : bytes) :
  (forall info, get_info cover_html = inr info -> page_ids info <> [])
  /\ (forall encoding args first_elem book_info rest,
        get_info_encoding cover_html = inr encoding ->
        oc_run_args_text cover_html args ->
        json_loads ("[" ++ args ++ "]") encoding
        = inr (JArray (first_elem :: book_info :: rest)) ->
        (forall members,
            first_elem = JObject members ->
            dict_get "page" members = None ->
            get_info cover_html = inl (ParsingError "Cannot find page info"))
        /\ (forall members pages,
              first_elem = JObject members ->
              dict_get "page" members = Some pages ->
              py_iter pages = inr [] ->
              get_info cover_html = inl (ParsingError "No page_ids found"))
        /\ (scalar first_elem -> get_info cover_html = inl TypeError)
        /\ (forall members pages,
              first_elem = JObject members ->
              dict_get "page" members = Some pages ->
              scalar pages ->
              get_info cover_html = inl TypeError)).
Proof.
  split.
  - intros info. unfold get_info.
    destruct (get_info_encoding cover_html) as [e|encoding]; [discriminate|].
    apply get_info_decoded_page_ids.
  - intros encoding args first_elem book_info rest Henc Hargs Hjson.
    unfold get_info. rewrite Henc. cbn [bind].
    rewrite (get_info_decoded_args _ _ _ Hargs), Hjson.
    cbn [bind py_len py_first_two length Nat.ltb Nat.leb].
    split; [|split; [|split]].
    + intros members -> Hd. cbn [bind py_in py_getitem]. now rewrite Hd.
    + intros members pages -> Hd Hi. cbn [bind py_in py_getitem].
      rewrite Hd. cbn [bind is_some negb]. now rewrite Hi.
    + intros Hs. destruct first_elem; try contradiction; reflexivity.
    + intros members pages -> Hd Hs. cbn [bind py_in py_getitem].
      rewrite Hd. cbn [bind is_some negb].
      destruct pages; try contradiction; reflexivity.
Qed.

End PageCollection.

Lemma get_info_page_collection_witness :
  page_ids cover_info <> []
  /\ @get_info (runtime [])
       (dq "_OC_Run({'prefix':'http://x/b?id=B1'},{'title':'T'});")
     = inl (ParsingError "Cannot find page info")
  /\ @get_info (runtime [])
       (dq "_OC_Run({'page':[],'prefix':'http://x/b?id=B1'},{'title':'T'});")
     = inl (ParsingError "No page_ids found")
  /\ @get_info (runtime []) "_OC_Run(1,2);" = inl TypeError
  /\ @get_info (runtime []) (dq "_OC_Run({'page':null},2);") = inl TypeError.
Proof.
  split; [|split; [|split; [|split]]].
  - exact (proj1 (@get_info_page_collection (runtime []) cover_html)
             cover_info eq_refl).
  - refine (proj1 (proj2 (@get_info_page_collection (runtime [])
                            (dq "_OC_Run({'prefix':'http://x/b?id=B1'},{'title':'T'});"))
                     "iso8859-15" (dq "{'prefix':'http://x/b?id=B1'},{'title':'T'}")
                     (JObject [("prefix" : bytes, JString "http://x/b?id=B1")])
                     (JObject [("title" : bytes, JString "T")]) []
                     eq_refl _ eq_refl) _ eq_refl eq_refl).
    split; [|now apply no_newline_checked].
    now apply (between_checked "_OC_Run(" ");" []
                 (dq "{'prefix':'http://x/b?id=B1'},{'title':'T'}") []).
  - refine (proj1 (proj2 (proj2 (@get_info_page_collection (runtime [])
                            (dq "_OC_Run({'page':[],'prefix':'http://x/b?id=B1'},{'title':'T'});"))
                     "iso8859-15"
                     (dq "{'page':[],'prefix':'http://x/b?id=B1'},{'title':'T'}")
                     (JObject [("page" : bytes, JArray []);
                               ("prefix" : bytes, JString "http://x/b?id=B1")])
                     (JObject [("title" : bytes, JString "T")]) []
                     eq_refl _ eq_refl)) _ (JArray []) eq_refl eq_refl eq_refl).
    split; [|now apply no_newline_checked].
    now apply (between_checked "_OC_Run(" ");" []
                 (dq "{'page':[],'prefix':'http://x/b?id=B1'},{'title':'T'}") []).
  - refine (proj1 (proj2 (proj2 (proj2 (@get_info_page_collection (runtime [])
                            "_OC_Run(1,2);")
                     "iso8859-15" "1,2" (JInt 1) (JInt 2) []
                     eq_refl _ eq_refl))) I).
    split; [|now apply no_newline_checked].
    now apply (between_checked "_OC_Run(" ");" [] "1,2" []).
  - refine (proj2 (proj2 (proj2 (proj2 (@get_info_page_collection (runtime [])
                            (dq "_OC_Run({'page':null},2);"))
                     "iso8859-15" (dq "{'page':null},2")
                     (JObject [("page" : bytes, JNull)]) (JInt 2) []
                     eq_refl _ eq_refl))) _ JNull eq_refl eq_refl I).
    split; [|now apply no_newline_checked].
    now apply (between_checked "_OC_Run(" ");" [] (dq "{'page':null},2") []).
Defined.

(** C5 as the specification states it fails: the first element of the
    arguments [1,2] is a number, which has no page collection, and
    [get_info] raises [TypeError], not [ParsingError]. *)
Lemma get_info_number_first_raises_TypeError :
  json_loads_7bit "[1,2]" "iso8859-15" = inr (JArray [JInt 1; JInt 2])
  /\ @get_info (runtime []) "_OC_Run(1,2);" = inl TypeError
  /\ is_ParsingError (@get_info (runtime []) "_OC_Run(1,2);") = false.
Proof. repeat split. Qed.

(** ** The encoding that reaches the parser *)

Lemma ie_field_input (tag : bytes) : ie_field tag -> ie_input tag.
Proof.
  intros (a & m & w & r & Hm & Hne & Hw & [->|[-> _]]).
  - exists a, m, w, [dquote], ([dquote] ++ r). repeat split; auto.
  - exists a, m, w, [], r. repeat split; auto.
Qed.

Lemma value_attribute_between (tag v : bytes) :
  value_attribute tag v ->
  between ("value=" ++ [dquote]) [dquote] tag v
  /\ Forall (fun x => x <> "010"%char) v.
Proof.
  intros (pre & c & post & Htag & _ & Hfirst & Hnext & Hline).
  split; [|exact Hline]. now exists (pre ++ [c]), post.
Qed.

Lemma re_search_lit_absent (l : bytes) (re : regex) (s : bytes) :
  (forall a r, s <> a ++ l ++ r) -> re_search (lit l ++ re) s = None.
Proof.
  intros H. destruct (re_search (lit l ++ re) s) as [res|] eqn:E; [|reflexivity].
  destruct (re_search_sound _ _ _ E) as (pre & t & -> & Ht).
  rewrite match_here_lit in Ht.
  destruct (strip_prefix l t) as [r|] eqn:F; [|discriminate].
  apply strip_prefix_Some in F. subst t. now destruct (H pre r).
Qed.

Lemma get_info_encoding_no_value (pre tag post : bytes) :
  ~ ie_input pre -> ~ In "<"%char tag ->
  (post = [] \/ exists r, post = "<"%char :: r) ->
  ie_input tag ->
  (forall a r, tag <> a ++ ("value=" ++ [dquote]) ++ r) ->
  get_info_encoding (pre ++ "<" ++ tag ++ post)
  = inl (ParsingError "Cannot find encoding info").
Proof.
  intros Hpre Htag Hpost Hie Hval. unfold get_info_encoding.
  rewrite (first_ie_input_piece pre tag post Hpre Htag Hpost Hie).
  pose proof (ie_input_nonempty tag Hie) as Hne.
  destruct tag as [|c tag]; [contradiction|].
  unfold re_value. now rewrite (re_search_lit_absent _ _ _ Hval).
Qed.

Section EncodingUsed.
Context {R : Runtime}.

Lemma get_info_decoded_call (encoding cover_html args : bytes) :
  oc_run_args_text cover_html args ->
  get_info_decoded encoding cover_html =
  (oc_run_args <- json_loads ("[" ++ args ++ "]") encoding ;;
   get_info_parsed oc_run_args).
Proof.
  intros Hargs. destruct (re_search_oc_run _ _ Hargs) as (m & Hm & Hg).
  unfold get_info_decoded. now rewrite Hm, Hg.
Qed.

(** C6 (as amended): the arguments of [_OC_Run] are parsed by [json.loads]
    with the encoding [iso8859-15] when no piece of the cover page matches
    the pattern of the declaration; with the value attribute, in lower
    case, of the first piece that matches, when that piece declares the
    field named [ie] and has a value attribute in double quotes; and when
    that piece has no [value=] with a double quote, [get_info] raises
    [ParsingError]. *)
Theorem get_info_parses_with_declared_encoding (cover_html args : bytes) :
  oc_run_args_text cover_html args ->
  (~ ie_input cover_html ->
   get_info cover_html =
   (oc_run_args <- json_loads ("[" ++ args ++ "]") "iso8859-15" ;;
    get_info_parsed oc_run_args))
  /\ (forall pre tag post v,
        cover_html = pre ++ "<" ++ tag ++ post ->
        ~ ie_input pre -> ~ In "<"%char tag ->
        (post = [] \/ exists r, post = "<"%char :: r) ->
        ie_field tag ->
        value_attribute tag v ->
        get_info cover_html =
        (oc_run_args <- json_loads ("[" ++ args ++ "]") (lower v) ;;
         get_info_parsed oc_run_args))
  /\ (forall pre tag post,
        cover_html = pre ++ "<" ++ tag ++ post ->
        ~ ie_input pre -> ~ In "<"%char tag ->
        (post = [] \/ exists r, post = "<"%char :: r) ->
        ie_field tag ->
        (forall a r, tag <> a ++ ("value=" ++ [dquote]) ++ r) ->
        get_info cover_html = inl (ParsingError "Cannot find encoding info")).
Proof.
  intros Hargs. split; [|split].
  - intros H. unfold get_info. rewrite (get_info_encoding_default _ H).
    cbn [bind]. now apply get_info_decoded_call.
  - intros pre tag post v Hhtml Hpre Htag Hpost Hie Hval.
    destruct (value_attribute_between _ _ Hval) as [Hb Hline].
    unfold get_info. rewrite Hhtml at 1.
    rewrite (get_info_encoding_declared _ _ _ _ Hpre Htag Hpost
               (ie_field_input _ Hie) Hb Hline).
    cbn [bind]. now apply get_info_decoded_call.
  - intros pre tag post Hhtml Hpre Htag Hpost Hie Hval.
    unfold get_info. rewrite Hhtml at 1.
    now rewrite (get_info_encoding_no_value _ _ _ Hpre Htag Hpost
                   (ie_field_input _ Hie) Hval).
Qed.

End EncodingUsed.

Lemma no_occurrence_checked (l s : bytes) :
  contains l s = false -> forall a r, s <> a ++ l ++ r.
Proof. apply contains_false. Qed.

Lemma get_info_parses_with_declared_encoding_witness :
  @get_info (runtime []) "<script>_OC_Run(x);</script>"
  = (oc_run_args <- json_loads_7bit "[x]" "iso8859-15" ;;
     @get_info_parsed (runtime []) oc_run_args)
  /\ @get_info (runtime []) cover_html
     = (oc_run_args <- json_loads_7bit ("[" ++ cover_args ++ "]") "utf-8" ;;
        @get_info_parsed (runtime []) oc_run_args)
  /\ @get_info (runtime []) (dq "<input name='ie'><script>_OC_Run(x);</script>")
     = inl (ParsingError "Cannot find encoding info").
Proof.
  split; [|split].
  - refine (proj1 (@get_info_parses_with_declared_encoding (runtime [])
                     "<script>_OC_Run(x);</script>" "x" _) _).
    + split; [|now apply no_newline_checked].
      now apply (between_checked "_OC_Run(" ");" "<script>" "x" "</script>").
    + now apply not_ie_input_checked.
  - refine (proj1 (proj2 (@get_info_parses_with_declared_encoding (runtime [])
                            cover_html cover_args cover_html_args))
              "<html>" (dq "input type='hidden' name='ie' value='UTF-8'>")
              (skipn 51 cover_html) "UTF-8" eq_refl _ _ _ _ _).
    + now apply not_ie_input_checked.
    + now apply not_In_checked.
    + right. eexists. reflexivity.
    + exists [], (dq " type='hidden'"), " ", (dq " value='UTF-8'>").
      split; [repeat constructor; discriminate|].
      split; [discriminate|]. split; [repeat constructor|].
      left. reflexivity.
    + exists (dq "input type='hidden' name='ie'"), " "%char, ">".
      split; [reflexivity|]. split; [reflexivity|]. split; [|split].
      * now apply first_occurrence.
      * now apply first_occurrence.
      * now apply no_newline_checked.
  - refine (proj2 (proj2 (@get_info_parses_with_declared_encoding (runtime [])
                            (dq "<input name='ie'><script>_OC_Run(x);</script>")
                            "x" _))
              [] (dq "input name='ie'>") "<script>_OC_Run(x);</script>"
              eq_refl _ _ _ _ _).
    + split; [|now apply no_newline_checked].
      now apply (between_checked "_OC_Run(" ");" (dq "<input name='ie'><script>")
                   "x" "</script>").
    + now apply not_ie_input_checked.
    + now apply not_In_checked.
    + right. eexists. reflexivity.
    + exists [], [], " ", ">".
      split; [constructor|]. split; [discriminate|].
      split; [repeat constructor|]. left. reflexivity.
    + now apply no_occurrence_checked.
Defined.

(** C6 as the specification states it fails: a cover page declares the
    input field [ie] with the value [UTF-8] in single quotes, and no
    encoding is found: [get_info] raises [ParsingError]; a cover page
    declares the field with its name in single quotes, and the encoding is
    [iso8859-15], not [utf-8]. *)
Lemma get_info_encoding_quoting :
  @get_info (runtime [])
    ("<input name=" ++ [dquote] ++ "ie" ++ [dquote]
       ++ " value='UTF-8'><script>_OC_Run(x);</script>")
  = inl (ParsingError "Cannot find encoding info")
  /\ get_info_encoding
       ("<input name='ie' value=" ++ [dquote] ++ "UTF-8" ++ [dquote]
          ++ "><script>_OC_Run(x);</script>")
     = inr ("iso8859-15" : bytes).
Proof. split; reflexivity. Qed.

(** ** The cover URL *)

(** The resolver takes back from a cover URL the identifier it was built
    with, when the identifier is not empty and has no [&]. *)
Theorem get_id_from_string_of_cover_url (book_id : bytes) :
  book_id <> [] -> Forall (fun c => c <> "&"%char) book_id ->
  get_id_from_string (get_cover_url book_id) = inr book_id.
Proof.
  intros Hne Hall.
  refine (proj1 (proj2 (get_id_from_string_leftmost_id (get_cover_url book_id)) _)
            "http://books.google.com/books?" book_id
            "&hl=en&printsec=frontcover&source=gbs_ge_summary_r&cad=0"
            eq_refl Hne Hall _ _).
  - apply contains_char. reflexivity.
  - right. eexists. reflexivity.
  - intros a c r Hs Hc.
    eapply (none_before (fun t => is_some (id_here t)));
      [|exact Hs|now apply id_here_found].
    reflexivity.
Qed.

Lemma get_id_from_string_of_cover_url_witness :
  get_id_from_string (get_cover_url "B1") = inr ("B1" : bytes).
Proof.
  apply get_id_from_string_of_cover_url; [discriminate|].
  repeat constructor; discriminate.
Defined.

(** ** A cover page without the call *)


Section NoCall.
Context {R : Runtime}.


End NoCall.


(** ** An image URL without a width *)

Section NoWidth.
Context {R : Runtime}.


End NoWidth.


(** ** The requests of the driver *)

Section Requests.
Context {R : Runtime}.

(** A URL from which no identifier can be taken ends the generator with
    the [ParsingError] of the resolver before anything is requested. *)
Theorem download_book_bad_url_no_request (url : bytes) (page_start : Z)
    (page_end : option Z) (history : list bytes) :
  In "/"%char url ->
  (forall a r, url = a ++ "id=" ++ r -> r = [] \/ exists r', r = "&"%char :: r') ->
  download_book url page_start page_end history
  = (Run [] (Some (ParsingError
                     ("Error extracting id query string from URL: " ++ url))),
     history).
Proof.
  intros Hslash Hid.
  pose proof (proj2 (proj2 (get_id_from_string_leftmost_id url) Hslash)) as H.
  apply H in Hid. unfold download_book, get_info_from_url.
  unfold get_id_from_string in *.
  destruct (negb (contains "/" url)); [discriminate Hid|].
  destruct (re_search re_id url); [discriminate Hid|reflexivity].
Qed.

(** A negative [page_start] ends the generator with [ValueError] once the
    metadata are there: nothing is yielded and no page is requested. *)
Theorem download_book_negative_start (url : bytes) (page_start : Z)
    (page_end : option Z) (history history1 : list bytes) (info : info) :
  get_info_from_url url history = (inr info, history1) ->
  (page_start < 0)%Z ->
  download_book url page_start page_end history
  = (Run [] (Some ValueError), history1).
Proof.
  intros Hinfo Hneg. unfold download_book, islice. rewrite Hinfo.
  apply Z.ltb_lt in Hneg. now rewrite Hneg.
Qed.

Lemma download_book_body_requests (info : info) (page_start : Z) (page0 : nat)
    (page_id : json) (history : list bytes) :
  exists requests,
    snd (download_book_body info page_start page0 page_id history)
    = history ++ requests
    /\ length requests <= 2.
Proof.
  unfold download_book_body, download.
  destruct (get_page_url (prefix info) page_id) as [e|page_url].
  { exists []. rewrite app_nil_r. auto. }
  destruct (lib_download history AGENT page_url) as [e|page_html].
  { exists [page_url]. auto. }
  destruct (get_image_url_from_page page_html) as [e|[[|c url]|]];
    try (exists [page_url]; auto; fail).
  destruct (max_resolution info) as [width height].
  destruct (py_str width) as [e|w]; [exists [page_url]; auto|].
  match goal with
  | |- context [lib_download (history ++ ?p) AGENT ?u] =>
      exists [page_url; u]; destruct (lib_download (history ++ p) AGENT u)
  end; cbn [snd]; rewrite <- app_assoc; auto.
Qed.

(** The loop adds to the requests made so far at most two for each page
    identifier, and takes none of them back. *)
Theorem download_book_loop_requests (info : info) (page_start : Z)
    (ids : list json) :
  forall (page0 : nat) (history : list bytes),
  exists requests,
    snd (download_book_loop info page_start page0 ids history)
    = history ++ requests
    /\ length requests <= 2 * length ids.
Proof.
  induction ids as [|pid ids IH]; intros page0 history.
  - exists []. rewrite app_nil_r. auto.
  - rewrite download_book_loop_cons.
    destruct (download_book_body_requests info page_start page0 pid history)
      as (req & Hreq & Hlen).
    destruct (download_book_body info page_start page0 pid history)
      as [[e|y] history'].
    + cbn [snd] in *. exists req. split; [exact Hreq|simpl; lia].
    + cbn [snd] in Hreq. subst history'.
      destruct (IH (S page0) (history ++ req)) as (req' & Hreq' & Hlen').
      destruct (download_book_loop info page_start (S page0) ids (history ++ req))
        as [r history''].
      cbn [snd] in *. exists (req ++ req'). split.
      * now rewrite app_assoc.
      * rewrite length_app. simpl. lia.
Qed.

End Requests.

Lemma download_book_bad_url_no_request_witness :
  @download_book (runtime web) "http://books.google.com/books?hl=en" 0 None []
  = (Run [] (Some (ParsingError
                     ("Error extracting id query string from URL: "
                        ++ "http://books.google.com/books?hl=en"))), []).
Proof.
  apply (@download_book_bad_url_no_request (runtime web)).
  - apply contains_char. reflexivity.
  - intros a r Hs. exfalso. revert Hs. apply contains_false. reflexivity.
Defined.

Lemma download_book_negative_start_witness :
  @download_book (runtime web) "B1" (-1) None []
  = (Run [] (Some ValueError), [get_cover_url "B1"]).
Proof.
  apply (@download_book_negative_start (runtime web) "B1" (-1) None []
           [get_cover_url "B1"] cover_info eq_refl).
  reflexivity.
Defined.

(** ** The label of the attribution *)

Lemma match_re_by (s : bytes) :
  match_here re_by None s =
  match strip_prefix "By" s with
  | Some (c :: r) => if space c then Some (None, drop_while space r) else None
  | _ => None
  end.
Proof.
  unfold re_by. rewrite match_here_lit.
  destruct (strip_prefix "By" s) as [[|c r]|]; try reflexivity.
  change (match_here [Atom space Plus false] None (c :: r))
    with (if space c
          then rep_greedy space (fun m rest => match_here [] None rest) [c] r
          else None).
  destruct (space c); [|reflexivity].
  now rewrite (rep_greedy_last space false None).
Qed.

(** The substitution that [get_info] applies to the attribution takes away
    a leading [By] with the white space after it, and leaves any other
    text, one that begins with [by] in lower case too, as it is. *)
Theorem attribution_label_stripped :
  (forall w rest,
      w <> [] -> Forall (fun c => space c = true) w ->
      (rest = [] \/ exists c r, rest = c :: r /\ space c = false) ->
      re_sub_anchored re_by [] ("By" ++ w ++ rest) = rest)
  /\ (forall s,
        (forall c r, s = "By" ++ c :: r -> space c = false) ->
        re_sub_anchored re_by [] s = s).
Proof.
  split.
  - intros w rest Hne Hw Hrest. unfold re_sub_anchored.
    rewrite match_re_by, strip_prefix_app.
    destruct w as [|c w]; [contradiction|].
    inversion Hw as [|? ? Hc Hw']; subst.
    rewrite <- app_comm_cons, Hc. now rewrite drop_while_all.
  - intros s H. unfold re_sub_anchored. rewrite match_re_by.
    destruct (strip_prefix "By" s) as [[|c r]|] eqn:E; try reflexivity.
    apply strip_prefix_Some in E. now rewrite (H c r E).
Qed.

Lemma attribution_label_stripped_witness :
  re_sub_anchored re_by [] "By  Jane Austen" = ("Jane Austen" : bytes)
  /\ re_sub_anchored re_by [] "by Jane Austen" = ("by Jane Austen" : bytes).
Proof.
  split.
  - refine (proj1 attribution_label_stripped "  " "Jane Austen" _ _ _).
    + discriminate.
    + repeat constructor.
    + right. exists "J"%char, "ane Austen". now split.
  - apply (proj2 attribution_label_stripped). intros c r Hs. discriminate Hs.
Defined.

(** ** The image URL of a page *)









(** ** Metadata of a well-formed cover page *)

Section Success.
Context {R : Runtime}.

(** A cover page whose call of [_OC_Run] has a first argument with the
    pages and the prefix and a second argument with the title, the
    attribution and the two dimensions gives metadata: the prefix decoded,
    the title and the attribution without its label unescaped, the
    dimensions as they are, and for page identifiers a permutation of those
    of the entries. *)
Theorem get_info_returns (cover_html encoding args : bytes)
    (members book : list (bytes * json)) (rest entries : list json)
    (ops : list (Z * json)) (p p' a : bytes) (mw mh t t' a' : json) :
  get_info_encoding cover_html = inr encoding ->
  oc_run_args_text cover_html args ->
  json_loads ("[" ++ args ++ "]") encoding
  = inr (JArray (JObject members :: JObject book :: rest)) ->
  dict_get "page" members = Some (JArray entries) ->
  Forall2 (fun e op => page_entry e (fst op) (snd op)) entries ops ->
  ops <> [] ->
  dict_get "prefix" members = Some (JString p) ->
  raw_unicode_escape p = inr p' ->
  dict_get "max_resolution_image_width" book = Some mw ->
  dict_get "max_resolution_image_height" book = Some mh ->
  dict_get "title" book = Some t ->
  html_unescape t = inr t' ->
  dict_get "attribution" book = Some (JString a) ->
  html_unescape (JString (re_sub_anchored re_by [] a)) = inr a' ->
  exists pids,
    Permutation pids (map snd ops)
    /\ get_info cover_html
       = inr {| prefix := p';
                page_ids := pids;
                title := t';
                attribution := a';
                max_resolution := (mw, mh) |}.
Proof.
  intros Henc Hargs Hjson Hpage Hentries Hne Hp Hp' Hmw Hmh Ht Ht' Ha Ha'.
  destruct (page_entries_keyed _ _ Hentries) as [Hkeyed Hops].
  set (kes := combine (map (fun op => JInt (fst op)) ops) entries) in *.
  assert (Hsorted : Forall keyed_entry (sorted_by py_lt kes)).
  { eapply Permutation_Forall; [|exact Hkeyed]. symmetry. apply sorted_by_perm. }
  exists (map (fun x => entry_pid (snd x)) (sorted_by py_lt kes)).
  assert (Hperm : Permutation (map (fun x => entry_pid (snd x)) (sorted_by py_lt kes))
                              (map snd ops)).
  { rewrite <- Hops, map_map. cbn [snd].
    apply Permutation_map, sorted_by_perm. }
  split; [exact Hperm|].
  unfold get_info. rewrite Henc. cbn [bind].
  rewrite (get_info_decoded_args _ _ _ Hargs), Hjson.
  cbn [bind py_len py_first_two length Nat.ltb Nat.leb py_in py_getitem].
  rewrite Hpage. cbn [bind is_some negb py_iter].
  rewrite (page_entries_keys _ _ Hentries). cbn [bind]. fold kes.
  rewrite (keyed_entries_pids _ Hsorted). cbn [bind].
  destruct (map (fun x => entry_pid (snd x)) (sorted_by py_lt kes)) as [|pid pids]
    eqn:Epids.
  { apply Permutation_nil in Hperm. destruct ops; [contradiction|discriminate]. }
  rewrite Hp. cbn [bind]. rewrite Hp'. cbn [bind].
  rewrite Hmw, Hmh, Ht. cbn [bind]. unfold get_unescape_entities.
  rewrite Ht'. cbn [bind]. rewrite Ha. cbn [bind]. rewrite Ha'. reflexivity.
Qed.

End Success.

Lemma get_info_returns_witness :
  exists pids,
    Permutation pids [JString "p2"; JString "p0"; JString "p1"]
    /\ @get_info (runtime []) cover_html
       = inr {| prefix := "http://x/b?id=B1";
                page_ids := pids;
                title := JString "T";
                attribution := JString "A";
                max_resolution := (JInt 2000, JInt 3000) |}.
Proof.
  refine (@get_info_returns (runtime []) cover_html "utf-8" cover_args
            cover_members
            [("title" : bytes, JString "T");
             ("attribution" : bytes, JString "By A");
             ("max_resolution_image_width" : bytes, JInt 2000);
             ("max_resolution_image_height" : bytes, JInt 3000)]
            [] cover_entries
            [(2%Z, JString "p2"); (0%Z, JString "p0"); (1%Z, JString "p1")]
            "http://x/b?id=B1" "http://x/b?id=B1" "By A"
            (JInt 2000) (JInt 3000) (JString "T") (JString "T") (JString "A")
            eq_refl cover_html_args eq_refl eq_refl _ _
            eq_refl eq_refl eq_refl eq_refl eq_refl eq_refl eq_refl eq_refl).
  - repeat constructor; eexists; repeat split.
  - discriminate.
Defined.
